(** * ai-banner: the banner generation round of [AppComponent]

    A shallow embedding of [src/app.component.ts]: the component's signals
    as a record, its event handlers as functions, and [generateBanners] as a
    computation in a small state-and-exception monad that also knows about
    suspension at an [await].  The external [GeminiService] is a parameter. *)

From Stdlib Require Import Strings.String Strings.Ascii NArith.
From stdpp Require Import base option list.

Open Scope list_scope.

(** ** JavaScript strings

    A JavaScript string is a sequence of UTF-16 code units.  Literals of the
    source are all ASCII and are written with [lit]. *)

Definition jsstring := list N.

Definition lit (s : string) : jsstring :=
  N_of_ascii <$> list_ascii_of_string s.

(** The two characters that cannot stand inside a literal here. *)
Definition nl : jsstring := [10%N].
Definition dq : jsstring := [34%N].

(** [WhiteSpace] and [LineTerminator] of ECMAScript, the code units that
    [String.prototype.trim] strips. *)
Definition isWhiteSpace (c : N) : bool :=
  ((9 <=? c) && (c <=? 13) || (c =? 32) || (c =? 160) || (c =? 5760)
   || (8192 <=? c) && (c <=? 8202) || (c =? 8232) || (c =? 8233)
   || (c =? 8239) || (c =? 8287) || (c =? 12288) || (c =? 65279))%N.

Fixpoint trimStart (s : jsstring) : jsstring :=
  match s with
  | c :: s' => if isWhiteSpace c then trimStart s' else s
  | [] => []
  end.

Definition trimEnd (s : jsstring) : jsstring := reverse (trimStart (reverse s)).

Definition trim (s : jsstring) : jsstring := trimEnd (trimStart s).

(** Truthiness of a string: only the empty string is falsy. *)
Definition truthy (s : jsstring) : bool :=
  match s with [] => false | _ :: _ => true end.

(** [String(n)] for a non-negative integer, as a template literal renders
    [array.length]. *)
Fixpoint uint_units (d : Decimal.uint) : jsstring :=
  match d with
  | Decimal.Nil => []
  | Decimal.D0 d => 48%N :: uint_units d
  | Decimal.D1 d => 49%N :: uint_units d
  | Decimal.D2 d => 50%N :: uint_units d
  | Decimal.D3 d => 51%N :: uint_units d
  | Decimal.D4 d => 52%N :: uint_units d
  | Decimal.D5 d => 53%N :: uint_units d
  | Decimal.D6 d => 54%N :: uint_units d
  | Decimal.D7 d => 55%N :: uint_units d
  | Decimal.D8 d => 56%N :: uint_units d
  | Decimal.D9 d => 57%N :: uint_units d
  end.

Definition numberToString (n : nat) : jsstring := uint_units (Nat.to_uint n).

(** [needle] occurs in [hay]. *)
Definition contains (needle hay : jsstring) : Prop :=
  ∃ pre post, hay = pre ++ needle ++ post.

(** ** Data model *)

Inductive AspectRatio := R16_9 | R4_3 | R1_1 | R3_4 | R9_16.

(** The string each member of the union type is. *)
Definition ratioText (r : AspectRatio) : jsstring :=
  match r with
  | R16_9 => lit "16:9"
  | R4_3 => lit "4:3"
  | R1_1 => lit "1:1"
  | R3_4 => lit "3:4"
  | R9_16 => lit "9:16"
  end.

Module Banner.
Record t := mk { imageUrl : jsstring; aspectRatio : jsstring; name : jsstring }.
End Banner.

Module BannerFormat.
Record t := mk { name : jsstring; aspectRatio : AspectRatio; description : jsstring }.
End BannerFormat.

Module DesignTemplate.
Record t := mk {
  name : jsstring;
  description : jsstring;
  icon : jsstring;
  promptFragment : jsstring
}.
End DesignTemplate.

Definition designTemplates : list DesignTemplate.t := [
  DesignTemplate.mk
    (lit "Minimalist & Clean")
    (lit "Focus on whitespace, simplicity, and the core product.")
    (lit "M3.75 6A2.25 2.25 0 001.5 8.25v7.5A2.25 2.25 0 003.75 18h16.5A2.25 2.25 0 0022.5 15.75v-7.5A2.25 2.25 0 0020.25 6H3.75z")
    (lit "The design style must be minimalist and clean. Emphasize negative space, use a simple and muted color palette, and focus on the product as the single hero element. The overall feeling should be modern, airy, and sophisticated.");
  DesignTemplate.mk
    (lit "Bold & Vibrant")
    (lit "Use energetic colors and dynamic layouts to grab attention.")
    (lit "M3.75 13.5l10.5-11.25L12 10.5h8.25L9.75 21.75 12 13.5H3.75z")
    (lit "The design style must be bold and vibrant. Use a high-contrast, energetic color palette with dynamic shapes and a layout that creates a sense of excitement and movement. The ad should be eye-catching and demand attention.");
  DesignTemplate.mk
    (lit "Elegant & Luxurious")
    (lit "Sophisticated look with premium textures and refined fonts.")
    (lit "M9.813 15.904L9 18.75l-.813-2.846a4.5 4.5 0 00-3.09-3.09L2.25 12l2.846-.813a4.5 4.5 0 003.09-3.09L9 5.25l.813 2.846a4.5 4.5 0 003.09 3.09L15.75 12l-2.846.813a4.5 4.5 0 00-3.09 3.09z")
    (lit "The design style must be elegant and luxurious. Use a rich, sophisticated color palette (like deep blues, golds, or silvers), premium textures (like marble or silk), and a sense of classic, high-end design. The product should look aspirational and premium.");
  DesignTemplate.mk
    (lit "Futuristic & Techy")
    (lit "Sleek, modern aesthetic with neon accents and abstract graphics.")
    (lit "M8.25 3v1.5M4.5 8.25H3m18 0h-1.5M4.5 12H3m18 0h-1.5m-15 3.75H3m18 0h-1.5M8.25 19.5V21M12 3v1.5m0 15V21m3.75-18v1.5m0 15V21m-9-1.5h10.5a2.25 2.25 0 002.25-2.25V8.25a2.25 2.25 0 00-2.25-2.25H8.25a2.25 2.25 0 00-2.25 2.25v7.5a2.25 2.25 0 002.25 2.25z")
    (lit "The design style must be futuristic and tech-focused. Incorporate elements like glowing neon lines, abstract digital patterns, dark backgrounds with bright accents, and a sleek, high-tech aesthetic. The ad should feel innovative and cutting-edge.")
].

Definition bannerFormats : list BannerFormat.t := [
  BannerFormat.mk (lit "Leaderboard / Banner") R16_9 (lit "Wide format for top of page");
  BannerFormat.mk (lit "Medium Rectangle") R4_3 (lit "Versatile, common format");
  BannerFormat.mk (lit "Square") R1_1 (lit "Ideal for social media feeds");
  BannerFormat.mk (lit "Portrait") R3_4 (lit "Vertical format for sidebars");
  BannerFormat.mk (lit "Skyscraper") R9_16 (lit "Tall format for mobile screens")
].

(** ** The component's signals *)

Record AppComponent := mkApp {
  productDescription : jsstring;
  productUrl : jsstring;
  generatedBanners : list Banner.t;
  isLoading : bool;
  error : option jsstring;
  selectedTemplate : DesignTemplate.t
}.

(** The component as constructed: the field initialisers. *)
Definition initialComponent : AppComponent := {|
  productDescription := lit "A high-performance electric mountain bike with a sleek carbon fiber frame, long-lasting battery, and all-terrain tires.";
  productUrl := lit "www.electricbikes.com/peak-rider-x";
  generatedBanners := [];
  isLoading := false;
  error := None;
  selectedTemplate := default (DesignTemplate.mk [] [] [] []) (designTemplates !! 0)
|}.

Definition set_productDescription (v : jsstring) (c : AppComponent) : AppComponent :=
  mkApp v (productUrl c) (generatedBanners c) (isLoading c) (error c) (selectedTemplate c).
Definition set_productUrl (v : jsstring) (c : AppComponent) : AppComponent :=
  mkApp (productDescription c) v (generatedBanners c) (isLoading c) (error c) (selectedTemplate c).
Definition set_generatedBanners (v : list Banner.t) (c : AppComponent) : AppComponent :=
  mkApp (productDescription c) (productUrl c) v (isLoading c) (error c) (selectedTemplate c).
Definition set_isLoading (v : bool) (c : AppComponent) : AppComponent :=
  mkApp (productDescription c) (productUrl c) (generatedBanners c) v (error c) (selectedTemplate c).
Definition set_error (v : option jsstring) (c : AppComponent) : AppComponent :=
  mkApp (productDescription c) (productUrl c) (generatedBanners c) (isLoading c) v (selectedTemplate c).
Definition set_selectedTemplate (v : DesignTemplate.t) (c : AppComponent) : AppComponent :=
  mkApp (productDescription c) (productUrl c) (generatedBanners c) (isLoading c) (error c) v.

(** ** The synchronous handlers *)

(** A DOM event, of which the handlers read [event.target.value] only. *)
Module Event.
Record t := mk { targetValue : jsstring }.
End Event.

Definition updateDescription (event : Event.t) (c : AppComponent) : AppComponent :=
  set_productDescription (Event.targetValue event) c.

Definition updateUrl (event : Event.t) (c : AppComponent) : AppComponent :=
  set_productUrl (Event.targetValue event) c.

Definition selectTemplate (template : DesignTemplate.t) (c : AppComponent) : AppComponent :=
  set_selectedTemplate template c.

(** ** Exceptions, promises and the console *)

(** What can be thrown, or given as a rejection reason: an [Error] object
    with its [message], or a value that is not an [Error]. *)
Inductive JsValue :=
  | ErrorObject (message : jsstring)
  | StringValue (s : jsstring)
  | Undefined.

Definition instanceofError (e : JsValue) : bool :=
  match e with ErrorObject _ => true | _ => false end.

(** A promise is described by how it settles, if it ever does; whether and
    when it does is the completion order below. *)
Inductive Promise (A : Type) :=
  | Fulfills (value : A)
  | Rejects (reason : JsValue).
Arguments Fulfills {A} value.
Arguments Rejects {A} reason.

(** [p.then(f)] with a callback that does not throw. *)
Definition then_ {A B} (p : Promise A) (f : A → B) : Promise B :=
  match p with
  | Fulfills v => Fulfills (f v)
  | Rejects r => Rejects r
  end.

(** The elements of the array [Promise.allSettled] resolves with. *)
Inductive SettledResult (A : Type) :=
  | fulfilled (value : A)
  | rejected (reason : JsValue).
Arguments fulfilled {A} value.
Arguments rejected {A} reason.

Definition settled {A} (p : Promise A) : SettledResult A :=
  match p with
  | Fulfills v => fulfilled v
  | Rejects r => rejected r
  end.

(** [Promise.allSettled]: a [values] array with one slot per input promise;
    the promise at [index] writes its slot when it settles, and the result
    promise resolves with [values] once every slot is written.  [order]
    lists the indices in the order in which the promises settle; an index
    that is missing from it is a promise that never settles. *)
Definition settleAt {A} (promises : list (Promise A))
    (values : list (option (SettledResult A))) (index : nat)
    : list (option (SettledResult A)) :=
  match promises !! index with
  | Some p => <[index := Some (settled p)]> values
  | None => values
  end.

Definition allSettled {A} (promises : list (Promise A)) (order : list nat)
    : option (list (SettledResult A)) :=
  mapM id (foldl (settleAt promises) (replicate (length promises) None) order).

(** What a call of [GeminiService.generateBannerImage] does: throw before
    it returns, or return a promise. *)
Inductive ServiceReply :=
  | Throws (e : JsValue)
  | Returns (p : Promise jsstring).

(** A call of the service as a test double captures it: the arguments, and
    the signals as they stand when the call is made. *)
Record Call := mkCall {
  signalsSeen : AppComponent;
  promptArg : jsstring;
  aspectRatioArg : AspectRatio
}.

Inductive LogEntry :=
  | FailedToGenerate (reason : JsValue)
  | Caught (e : JsValue).

(** Everything a run can touch. *)
Record World := mkWorld {
  app : AppComponent;
  console : list LogEntry;
  calls : list Call
}.

(** ** The monad of handler code

    A computation ends normally, ends by throwing, or stays suspended at an
    [await] whose promise never settles. *)
Inductive Outcome (A : Type) :=
  | Normal (a : A) (w : World)
  | Throw (e : JsValue) (w : World)
  | Suspended (w : World).
Arguments Normal {A} a w.
Arguments Throw {A} e w.
Arguments Suspended {A} w.

Definition M (A : Type) : Type := World → Outcome A.

#[global] Instance M_ret : MRet M := λ A a w, Normal a w.

#[global] Instance M_bind : MBind M := λ A B k m w,
  match m w with
  | Normal a w' => k a w'
  | Throw e w' => Throw e w'
  | Suspended w' => Suspended w'
  end.

Definition get {A} (signal : AppComponent → A) : M A :=
  λ w, Normal (signal (app w)) w.

Definition set {A} (setter : A → AppComponent → AppComponent) (v : A) : M () :=
  λ w, Normal () (mkWorld (setter v (app w)) (console w) (calls w)).

Definition console_error (entry : LogEntry) : M () :=
  λ w, Normal () (mkWorld (app w) (console w ++ [entry]) (calls w)).

(** [try { body } catch (e) { handler e } finally { finalizer }].  A body
    suspended for ever reaches neither the handler nor the finalizer. *)
Definition tryCatchFinally {A} (body : M A) (handler : JsValue → M A)
    (finalizer : M ()) : M A := λ w,
  let caught :=
    match body w with
    | Throw e w1 => handler e w1
    | o => o
    end in
  match caught with
  | Normal a w2 =>
      match finalizer w2 with
      | Normal _ w3 => Normal a w3
      | Throw e w3 => Throw e w3
      | Suspended w3 => Suspended w3
      end
  | Throw e w2 =>
      match finalizer w2 with
      | Normal _ w3 => Throw e w3
      | Throw e' w3 => Throw e' w3
      | Suspended w3 => Suspended w3
      end
  | Suspended w2 => Suspended w2
  end.

(** While a round is suspended the event loop runs the component's other
    handlers.  (A re-entrant [generateBanners] is not listed: lemma
    [reentrant_call_ignored] shows that it returns at its guard.) *)
Inductive UserAction :=
  | UpdateDescription (event : Event.t)
  | UpdateUrl (event : Event.t)
  | SelectTemplate (template : DesignTemplate.t).

Definition handle (c : AppComponent) (a : UserAction) : AppComponent :=
  match a with
  | UpdateDescription event => updateDescription event c
  | UpdateUrl event => updateUrl event c
  | SelectTemplate template => selectTemplate template c
  end.

(** ** [generateBanners] *)

Section GenerateBanners.

(** The injected service: what a call with these arguments does.  The five
    calls of a round differ in their aspect ratio, so a function of the
    arguments describes any behaviour of the service within a round. *)
Variable geminiService : jsstring → AspectRatio → ServiceReply.

(** The handlers the event loop runs while the round is suspended. *)
Variable during : list UserAction.

(** The order in which the requests of the round complete. *)
Variable order : list nat.

Definition generateBannerImage (prompt : jsstring) (aspectRatio : AspectRatio)
    : M (Promise jsstring) := λ w,
  let w' := mkWorld (app w) (console w)
              (calls w ++ [mkCall (app w) prompt aspectRatio]) in
  match geminiService prompt aspectRatio with
  | Throws e => Throw e w'
  | Returns p => Normal p w'
  end.

(** [await Promise.allSettled(promises)]. *)
Definition awaitAllSettled {A} (promises : list (Promise A))
    : M (list (SettledResult A)) := λ w,
  let w' := mkWorld (foldl handle (app w) during) (console w) (calls w) in
  match allSettled promises order with
  | Some results => Normal results w'
  | None => Suspended w'
  end.

(** The template literal of lines 98 to 107. *)
Definition basePrompt (description url fragment : jsstring) : jsstring :=
  nl
  ++ lit "      Create a visually stunning, professional banner ad for a product." ++ nl
  ++ lit "      The ad should be clean, modern, and eye-catching, suitable for a high-end brand." ++ nl
  ++ lit "      Avoid text overlays, as text will be added later. Focus on compelling product imagery and a suitable background." ++ nl
  ++ lit "      " ++ nl
  ++ lit "      Product Description: " ++ dq ++ description ++ dq ++ nl
  ++ lit "      Product Website (for context): " ++ dq ++ url ++ dq ++ nl
  ++ nl
  ++ lit "      IMPORTANT DESIGN STYLE: " ++ fragment ++ nl
  ++ lit "    ".

(** The template literal of line 112. *)
Definition formatPrompt (base : jsstring) (format : BannerFormat.t) : jsstring :=
  base ++ nl
  ++ lit "Generate the ad in a " ++ ratioText (BannerFormat.aspectRatio format)
  ++ lit " aspect ratio, suitable for a " ++ dq ++ BannerFormat.name format ++ dq
  ++ lit " ad format.".

(** The callback of [bannerFormats.map]: lines 111 to 118. *)
Definition bannerPromise (base : jsstring) (format : BannerFormat.t)
    : M (Promise Banner.t) :=
  p ← generateBannerImage (formatPrompt base format) (BannerFormat.aspectRatio format);
  mret (then_ p (λ imageUrl,
    Banner.mk imageUrl (ratioText (BannerFormat.aspectRatio format))
      (BannerFormat.name format))).

(** The [results.forEach] of lines 124 to 130, [successfulBanners] being
    the array it pushes to. *)
Fixpoint forEachResult (results : list (SettledResult Banner.t))
    (successfulBanners : list Banner.t) : M (list Banner.t) :=
  match results with
  | [] => mret successfulBanners
  | fulfilled value :: rest => forEachResult rest (successfulBanners ++ [value])
  | rejected reason :: rest =>
      console_error (FailedToGenerate reason);;
      forEachResult rest successfulBanners
  end.

Definition errorSummary (succeeded total : nat) : jsstring :=
  lit "Could not generate all banner formats. Only " ++ numberToString succeeded
  ++ lit " of " ++ numberToString total ++ lit " were successful.".

(** The [try] block: lines 110 to 136. *)
Definition tryBlock (base : jsstring) : M () :=
  bannerPromises ← mapM (bannerPromise base) bannerFormats;
  results ← awaitAllSettled bannerPromises;
  successfulBanners ← forEachResult results [];
  set set_generatedBanners successfulBanners;;
  if length successfulBanners <? length bannerFormats
  then set set_error (Some (errorSummary (length successfulBanners) (length bannerFormats)))
  else mret ().

(** The [catch] block: lines 139 and 140. *)
Definition catchBlock (e : JsValue) : M () :=
  console_error (Caught e);;
  set set_error (Some
    match e with
    | ErrorObject message => message
    | _ => lit "An unknown error occurred during generation."
    end).

(** The [finally] block: line 142. *)
Definition finallyBlock : M () := set set_isLoading false.

Definition generateBanners : M () :=
  loading ← get isLoading;
  description ← get productDescription;
  if loading || negb (truthy (trim description)) then mret () else
  set set_isLoading true;;
  set set_error None;;
  set set_generatedBanners [];;
  description ← get productDescription;
  url ← get productUrl;
  template ← get selectedTemplate;
  let base := basePrompt description url (DesignTemplate.promptFragment template) in
  tryCatchFinally (tryBlock base) catchBlock finallyBlock.

End GenerateBanners.

(** ** Vocabulary of the statements *)

Definition worldOf {A} (o : Outcome A) : World :=
  match o with
  | Normal _ w => w
  | Throw _ w => w
  | Suspended w => w
  end.

(** The guard of [generateBanners] lets the call through. *)
Definition accepted (c : AppComponent) : Prop :=
  isLoading c = false ∧ truthy (trim (productDescription c)) = true.

(** The base prompt a round started in [c] composes. *)
Definition roundBase (c : AppComponent) : jsstring :=
  basePrompt (productDescription c) (productUrl c)
    (DesignTemplate.promptFragment (selectedTemplate c)).

(** The three instruction lines every prompt starts with. *)
Definition preamble : jsstring :=
  nl
  ++ lit "      Create a visually stunning, professional banner ad for a product." ++ nl
  ++ lit "      The ad should be clean, modern, and eye-catching, suitable for a high-end brand." ++ nl
  ++ lit "      Avoid text overlays, as text will be added later. Focus on compelling product imagery and a suitable background.".

Definition bannerOf (format : BannerFormat.t) (imageUrl : jsstring) : Banner.t :=
  Banner.mk imageUrl (ratioText (BannerFormat.aspectRatio format))
    (BannerFormat.name format).

(** The message the [catch] block shows for a thrown value. *)
Definition caughtMessage (e : JsValue) : jsstring :=
  match e with
  | ErrorObject message => message
  | _ => lit "An unknown error occurred during generation."
  end.

Definition fulfilledValues {A} (results : list (SettledResult A)) : list A :=
  omap (λ r, match r with fulfilled v => Some v | rejected _ => None end) results.

Definition rejectionLog {A} (results : list (SettledResult A)) : list LogEntry :=
  omap (λ r, match r with
             | rejected reason => Some (FailedToGenerate reason)
             | fulfilled _ => None
             end) results.

(** Every request of the round settles. *)
Definition everyRequestSettles (order : list nat) : Prop :=
  Forall (λ i, i ∈ order) (seq 0 (length bannerFormats)).

Section Requests.

Variable geminiService : jsstring → AspectRatio → ServiceReply.

(** What the service does with the request for [format]. *)
Definition request (base : jsstring) (format : BannerFormat.t) : ServiceReply :=
  geminiService (formatPrompt base format) (BannerFormat.aspectRatio format).

(** The value the first throwing call of [formats.map] throws, if any. *)
Fixpoint firstThrow (base : jsstring) (formats : list BannerFormat.t)
    : option JsValue :=
  match formats with
  | [] => None
  | format :: rest =>
      match request base format with
      | Throws e => Some e
      | Returns _ => firstThrow base rest
      end
  end.

(** The formats [formats.map] gets to call the service for. *)
Fixpoint dispatched (base : jsstring) (formats : list BannerFormat.t)
    : list BannerFormat.t :=
  match formats with
  | [] => []
  | format :: rest =>
      format :: match request base format with
                | Throws _ => []
                | Returns _ => dispatched base rest
                end
  end.

(** The image URL of a request that succeeds. *)
Definition imageOf (base : jsstring) (format : BannerFormat.t) : option jsstring :=
  match request base format with
  | Returns (Fulfills imageUrl) => Some imageUrl
  | _ => None
  end.

(** One banner per fulfilled request, in the order of [formats]. *)
Definition fulfilledBanners (base : jsstring) (formats : list BannerFormat.t)
    : list Banner.t :=
  omap (λ format, bannerOf format <$> imageOf base format) formats.

(** The promise the [map] callback yields for [format]. *)
Definition mappedPromise (base : jsstring) (format : BannerFormat.t)
    : Promise Banner.t :=
  match request base format with
  | Returns p => then_ p (bannerOf format)
  | Throws e => Rejects e
  end.

End Requests.

(** The signals right after the guard: lines 94 to 96. *)
Definition afterAcceptance (c : AppComponent) : AppComponent :=
  set_generatedBanners [] (set_error None (set_isLoading true c)).

(** The outcome of an accepted call in closed form: the catch path when the
    dispatch throws, the aggregation when every request settles, and a
    round suspended for ever otherwise. *)
Definition roundOutcome (geminiService : jsstring → AspectRatio → ServiceReply)
    (during : list UserAction) (order : list nat) (w : World) : Outcome () :=
  let c1 := afterAcceptance (app w) in
  let base := roundBase (app w) in
  let calls' :=
    calls w ++ ((λ f, mkCall c1 (formatPrompt base f) (BannerFormat.aspectRatio f))
                <$> dispatched geminiService base bannerFormats) in
  match firstThrow geminiService base bannerFormats with
  | Some e =>
      Normal () (mkWorld (set_isLoading false (set_error (Some (caughtMessage e)) c1))
                   (console w ++ [Caught e]) calls')
  | None =>
      let c2 := foldl handle c1 during in
      if decide (everyRequestSettles order) then
        let banners := fulfilledBanners geminiService base bannerFormats in
        let c3 := set_generatedBanners banners c2 in
        let c4 :=
          if length banners <? length bannerFormats
          then set_error (Some (errorSummary (length banners) (length bannerFormats))) c3
          else c3 in
        Normal () (mkWorld (set_isLoading false c4)
                     (console w ++ rejectionLog
                        (settled <$> (mappedPromise geminiService base <$> bannerFormats)))
                     calls')
      else Suspended (mkWorld c2 (console w) calls')
  end.

(** The displayed collection is one banner per request that was sent and
    fulfilled, and nothing else, after every completed call. *)
Definition bannersMatchFulfilledRequests
    (geminiService : jsstring → AspectRatio → ServiceReply)
    (during : list UserAction) (order : list nat) (w : World) : Prop :=
  ∀ w', generateBanners geminiService during order w = Normal () w' →
    generatedBanners (app w')
    = fulfilledBanners geminiService (roundBase (app w))
        (dispatched geminiService (roundBase (app w)) bannerFormats).

(** ** Test doubles of the service, and sample states *)

#[global] Instance AspectRatio_eq_dec : EqDecision AspectRatio.
Proof. solve_decision. Defined.

(** An image URL tagged with the aspect ratio that was asked for. *)
Definition taggedUrl (r : AspectRatio) : jsstring :=
  lit "https://img.example/" ++ ratioText r.

Definition alwaysSucceeds : jsstring → AspectRatio → ServiceReply :=
  λ _ r, Returns (Fulfills (taggedUrl r)).

(** The requests for the ratios in [bad] are rejected. *)
Definition rejectsFor (bad : list AspectRatio)
    : jsstring → AspectRatio → ServiceReply :=
  λ _ r, if decide (r ∈ bad)
         then Returns (Rejects (ErrorObject (lit "quota exceeded")))
         else Returns (Fulfills (taggedUrl r)).

(** The call for [bad] throws [e] before it returns a promise. *)
Definition throwsFor (bad : AspectRatio) (e : JsValue)
    : jsstring → AspectRatio → ServiceReply :=
  λ _ r, if decide (r = bad) then Throws e else Returns (Fulfills (taggedUrl r)).

Definition freshWorld : World := mkWorld initialComponent [] [].

Definition busyWorld : World :=
  mkWorld (set_isLoading true initialComponent) [] [].

Definition blankWorld : World :=
  mkWorld (set_productDescription (lit "  " ++ nl) initialComponent) [] [].

(** A world with stale results of an earlier round on display. *)
Definition staleWorld : World :=
  mkWorld (set_error (Some (lit "old error"))
             (set_generatedBanners [Banner.mk (lit "old.png") (lit "1:1") (lit "Square")]
                initialComponent)) [] [].

(** The console entry line 128 writes for the request of [format], when
    that request is rejected. *)
Definition failureOf (geminiService : jsstring → AspectRatio → ServiceReply)
    (base : jsstring) (format : BannerFormat.t) : option LogEntry :=
  match geminiService (formatPrompt base format) (BannerFormat.aspectRatio format) with
  | Returns (Rejects reason) => Some (FailedToGenerate reason)
  | _ => None
  end.

(** The three input signals of a component. *)
Definition inputsOf (c : AppComponent) : jsstring * jsstring * DesignTemplate.t :=
  (productDescription c, productUrl c, selectedTemplate c).

(** The values a sequence of handler calls writes to each input, oldest
    first. *)
Definition descriptionEdits (actions : list UserAction) : list jsstring :=
  omap (λ a, match a with
             | UpdateDescription event => Some (Event.targetValue event)
             | _ => None
             end) actions.

Definition urlEdits (actions : list UserAction) : list jsstring :=
  omap (λ a, match a with
             | UpdateUrl event => Some (Event.targetValue event)
             | _ => None
             end) actions.

Definition templateEdits (actions : list UserAction) : list DesignTemplate.t :=
  omap (λ a, match a with
             | SelectTemplate template => Some template
             | _ => None
             end) actions.

(** ** [Promise.allSettled] *)

Section AllSettled.

Context {A : Type}.
Implicit Types (promises : list (Promise A)) (order : list nat).
Implicit Types (values : list (option (SettledResult A))).

Lemma length_settleAt promises values index :
  length (settleAt promises values index) = length values.
Proof.
  unfold settleAt. destruct (promises !! index); [apply length_insert | done].
Qed.

Lemma lookup_settleAt promises values index i p :
  promises !! i = Some p → i < length values →
  settleAt promises values index !! i
  = if decide (i = index) then Some (Some (settled p)) else values !! i.
Proof.
  intros Hp Hi. unfold settleAt. case_decide as Hx.
  - subst index. rewrite Hp. by apply list_lookup_insert_eq.
  - destruct (promises !! index); [|done].
    by apply list_lookup_insert_ne.
Qed.

Lemma lookup_foldl_settleAt promises order : ∀ values i p,
  promises !! i = Some p → i < length values →
  foldl (settleAt promises) values order !! i
  = if decide (i ∈ order) then Some (Some (settled p)) else values !! i.
Proof.
  induction order as [|x order IH]; intros values i p Hp Hi; cbn [foldl].
  - rewrite decide_False; [done | apply not_elem_of_nil].
  - rewrite (IH _ i p Hp); [|by rewrite length_settleAt].
    rewrite (lookup_settleAt _ _ _ _ p Hp Hi).
    destruct (decide (i ∈ order)) as [Hin|Hin].
    { rewrite decide_True; [done | apply elem_of_cons; by right]. }
    destruct (decide (i = x)) as [->|Hne].
    { rewrite decide_True; [done | apply elem_of_cons; by left]. }
    rewrite decide_False; [done|].
    intros [?|?]%elem_of_cons; done.
Qed.

Lemma length_foldl_settleAt promises order : ∀ values,
  length (foldl (settleAt promises) values order) = length values.
Proof.
  induction order as [|x order IH]; intros values; simpl; [done|].
  by rewrite IH, length_settleAt.
Qed.

Lemma mapM_id_Some (f : Promise A → SettledResult A) promises :
  mapM id ((λ p, Some (f p)) <$> promises) = Some (f <$> promises).
Proof.
  induction promises as [|p promises IH]; [done|].
  cbn. cbn in IH. by rewrite IH.
Qed.

(** The slots come back in the order of the input, whatever the order of
    completion, and they come back exactly when every promise settles. *)
Lemma allSettled_spec promises order :
  allSettled promises order
  = if decide (Forall (λ i, i ∈ order) (seq 0 (length promises)))
    then Some (settled <$> promises) else None.
Proof.
  unfold allSettled.
  set (slots := foldl _ _ _).
  assert (Hlen : length slots = length promises).
  { unfold slots. by rewrite length_foldl_settleAt, length_replicate. }
  assert (Hslot : ∀ i p, promises !! i = Some p →
    slots !! i = if decide (i ∈ order) then Some (Some (settled p)) else Some None).
  { intros i p Hp. unfold slots.
    pose proof (lookup_lt_Some _ _ _ Hp) as Hi.
    rewrite (lookup_foldl_settleAt _ _ _ i p Hp); [|by rewrite length_replicate].
    case_decide; [done|]. by apply lookup_replicate_2. }
  case_decide as Hall.
  - assert (slots = (λ p, Some (settled p)) <$> promises) as ->.
    { apply list_eq. intros i. rewrite list_lookup_fmap.
      destruct (promises !! i) as [p|] eqn:Hp; simpl.
      - rewrite (Hslot i p Hp). rewrite decide_True; [done|].
        rewrite Forall_forall in Hall. apply Hall, elem_of_seq.
        apply lookup_lt_Some in Hp. lia.
      - apply lookup_ge_None. apply lookup_ge_None in Hp. lia. }
    apply mapM_id_Some.
  - destruct (mapM id slots) as [results|] eqn:Hres; [|done].
    exfalso. apply Hall. apply Forall_forall. intros i Hi.
    apply elem_of_seq in Hi.
    destruct (lookup_lt_is_Some_2 promises i) as [p Hp]; [lia|].
    specialize (Hslot i p Hp).
    destruct (decide (i ∈ order)); [done|].
    apply mapM_Some in Hres.
    destruct (Forall2_lookup_l _ _ _ _ _ Hres Hslot) as (y & _ & Hy).
    discriminate.
Qed.

End AllSettled.

(** ** The run of a round, step by step *)

Section Run.

Variable geminiService : jsstring → AspectRatio → ServiceReply.
Variable during : list UserAction.
Variable order : list nat.

Lemma forEachResult_spec results : ∀ successfulBanners w,
  forEachResult results successfulBanners w
  = Normal (successfulBanners ++ fulfilledValues results)
      (mkWorld (app w) (console w ++ rejectionLog results) (calls w)).
Proof.
  induction results as [|[value|reason] results IH]; intros acc [c l k].
  - cbn. by rewrite !app_nil_r.
  - cbn [forEachResult]. rewrite IH. cbn. by rewrite <- app_assoc.
  - cbn [forEachResult]. unfold mbind, M_bind, console_error.
    rewrite IH. cbn. by rewrite <- app_assoc.
Qed.

(** [formats.map] calls the service format by format and stops at the
    first call that throws. *)
Lemma dispatch_spec base formats : ∀ w,
  mapM (bannerPromise geminiService base) formats w
  = let w' := mkWorld (app w) (console w)
                (calls w ++ ((λ f, mkCall (app w) (formatPrompt base f)
                                     (BannerFormat.aspectRatio f))
                             <$> dispatched geminiService base formats)) in
    match firstThrow geminiService base formats with
    | Some e => Throw e w'
    | None => Normal (mappedPromise geminiService base <$> formats) w'
    end.
Proof.
  induction formats as [|f formats IH]; intros [c l k].
  - cbn. by rewrite app_nil_r.
  - cbn [mapM]. unfold mbind at 1. unfold M_bind at 1.
    unfold bannerPromise at 1. unfold mbind at 1. unfold M_bind at 1.
    unfold generateBannerImage. cbn [firstThrow dispatched app console calls].
    unfold mappedPromise at 1. cbn [fmap list_fmap].
    fold (request geminiService base f).
    destruct (request geminiService base f) as [e|p] eqn:Hreq.
    + done.
    + unfold mret at 1. unfold M_ret at 1.
      unfold mbind at 1. unfold M_bind at 1. rewrite IH.
      cbn [app console calls]. rewrite <- app_assoc. cbn [List.app].
      destruct (firstThrow geminiService base formats); [done|].
      reflexivity.
Qed.

Lemma fulfilledValues_mapped base formats :
  fulfilledValues (settled <$> (mappedPromise geminiService base <$> formats))
  = fulfilledBanners geminiService base formats.
Proof.
  unfold fulfilledValues, fulfilledBanners.
  induction formats as [|f formats IH]; [done|].
  cbn. cbn in IH. rewrite IH. unfold mappedPromise, imageOf.
  by destruct (request geminiService base f) as [e|[url|reason]].
Qed.

Lemma guard_passes c :
  accepted c →
  isLoading c || negb (truthy (trim (productDescription c))) = false.
Proof.
  by intros [-> ->].
Qed.

Lemma guard_blocks c :
  isLoading c = true ∨ trim (productDescription c) = [] →
  isLoading c || negb (truthy (trim (productDescription c))) = true.
Proof.
  intros [-> | ->]; [done | apply orb_true_r].
Qed.

Lemma generateBanners_blocked w :
  isLoading (app w) = true ∨ trim (productDescription (app w)) = [] →
  generateBanners geminiService during order w = Normal () w.
Proof.
  intros Hg. unfold generateBanners, mbind, M_bind, get.
  by rewrite (guard_blocks _ Hg).
Qed.

Lemma generateBanners_accepted w :
  accepted (app w) →
  generateBanners geminiService during order w
  = roundOutcome geminiService during order w.
Proof.
  intros Hacc. destruct w as [c l k]. cbn [app] in Hacc.
  unfold generateBanners, roundOutcome.
  unfold mbind at 1 2. unfold M_bind at 1 2. unfold get at 1 2.
  cbn [app]. rewrite (guard_passes _ Hacc).
  unfold mbind at 1 2 3 4 5 6. unfold M_bind at 1 2 3 4 5 6.
  unfold set at 1 2 3. unfold get at 1 2 3. cbn [app console calls].
  fold (afterAcceptance c).
  change (basePrompt _ _ _) with (roundBase c).
  unfold tryCatchFinally, tryBlock.
  unfold mbind at 1. unfold M_bind at 1.
  rewrite dispatch_spec. cbn [app console calls].
  destruct (firstThrow geminiService (roundBase c) bannerFormats) as [e|].
  { reflexivity. }
  unfold mbind at 1. unfold M_bind at 1.
  unfold awaitAllSettled at 1. rewrite allSettled_spec.
  rewrite !length_fmap.
  change (Forall _ (seq 0 (length bannerFormats))) with (everyRequestSettles order).
  cbn [app console calls].
  destruct (decide (everyRequestSettles order)); [|reflexivity].
  unfold mbind at 1. unfold M_bind at 1.
  rewrite forEachResult_spec. cbn [app console calls].
  rewrite app_nil_l, fulfilledValues_mapped.
  unfold mbind at 1. unfold M_bind at 1. unfold set at 1.
  cbn [app console calls].
  by destruct (length _ <? length bannerFormats).
Qed.

End Run.


(** ** What the interleaved handlers leave alone *)

Lemma isLoading_during during : ∀ c,
  isLoading (foldl handle c during) = isLoading c.
Proof.
  induction during as [|a during IH]; intros c; [done|].
  cbn [foldl]. rewrite IH. by destruct a.
Qed.

Lemma error_during during : ∀ c,
  error (foldl handle c during) = error c.
Proof.
  induction during as [|a during IH]; intros c; [done|].
  cbn [foldl]. rewrite IH. by destruct a.
Qed.

Lemma generatedBanners_during during : ∀ c,
  generatedBanners (foldl handle c during) = generatedBanners c.
Proof.
  induction during as [|a during IH]; intros c; [done|].
  cbn [foldl]. rewrite IH. by destruct a.
Qed.

(** A second [generateBanners] issued while a round is suspended returns at
    its guard, whatever handlers ran before it: at most one round is in
    flight. *)
Lemma reentrant_call_ignored geminiService during order w w' earlier later laterOrder :
  accepted (app w) →
  generateBanners geminiService during order w = Suspended w' →
  generateBanners geminiService later laterOrder
    (mkWorld (foldl handle (app w') earlier) (console w') (calls w'))
  = Normal () (mkWorld (foldl handle (app w') earlier) (console w') (calls w')).
Proof.
  intros Hacc Hrun. apply generateBanners_blocked. left. cbn [app].
  rewrite isLoading_during.
  rewrite (generateBanners_accepted _ _ _ _ Hacc) in Hrun.
  unfold roundOutcome in Hrun.
  destruct (firstThrow _ _ _); [discriminate|].
  destruct (decide _); [discriminate|].
  injection Hrun as <-. cbn [app]. by rewrite isLoading_during.
Qed.

(** ** The requests of a round *)

Section RequestFacts.

Variable geminiService : jsstring → AspectRatio → ServiceReply.
Variable base : jsstring.

Lemma dispatched_all formats :
  firstThrow geminiService base formats = None →
  dispatched geminiService base formats = formats.
Proof.
  induction formats as [|f formats IH]; [done|]. cbn.
  destruct (request geminiService base f); [done|].
  intros H. by rewrite IH.
Qed.

Lemma dispatched_lookup formats : ∀ i f,
  dispatched geminiService base formats !! i = Some f → formats !! i = Some f.
Proof.
  induction formats as [|f0 formats IH]; intros i f; [done|].
  cbn [dispatched]. destruct i as [|i]; [done|]. cbn [lookup list_lookup].
  destruct (request geminiService base f0); [done|]. apply IH.
Qed.

Lemma dispatched_nonempty formats :
  formats ≠ [] → dispatched geminiService base formats ≠ [].
Proof. by destruct formats. Qed.

Lemma firstThrow_Some formats e :
  firstThrow geminiService base formats = Some e →
  ∃ f, f ∈ formats ∧ request geminiService base f = Throws e.
Proof.
  induction formats as [|f formats IH]; [done|]. cbn.
  destruct (request geminiService base f) as [e'|p] eqn:Hreq.
  - intros [= ->]. exists f. split; [apply elem_of_cons; by left | done].
  - intros (f' & Hin & Hf')%IH. exists f'.
    split; [apply elem_of_cons; by right | done].
Qed.

Lemma firstThrow_None formats f :
  firstThrow geminiService base formats = None → f ∈ formats →
  ∃ p, request geminiService base f = Returns p.
Proof.
  induction formats as [|f0 formats IH]; [by intros _ ?%elem_of_nil|]. cbn.
  destruct (request geminiService base f0) as [e'|p] eqn:Hreq; [done|].
  intros Hnone [->|Hin]%elem_of_cons; [by exists p | by apply IH].
Qed.

Lemma firstThrow_None_iff formats :
  firstThrow geminiService base formats = None
  ↔ ∀ f, f ∈ formats → ∃ p, request geminiService base f = Returns p.
Proof.
  split; [intros Hnone f; by apply firstThrow_None|].
  induction formats as [|f formats IH]; intros Hall; [done|]. cbn.
  destruct (Hall f) as [p ->]; [apply elem_of_cons; by left|].
  apply IH. intros f' Hf'. apply Hall, elem_of_cons. by right.
Qed.

Lemma length_fulfilledBanners formats :
  length (fulfilledBanners geminiService base formats) ≤ length formats.
Proof.
  unfold fulfilledBanners.
  induction formats as [|f formats IH]; [done|]. cbn. cbn in IH.
  destruct (imageOf geminiService base f); cbn; lia.
Qed.

Lemma elem_of_fulfilledBanners formats b :
  b ∈ fulfilledBanners geminiService base formats ↔
  ∃ f imageUrl, f ∈ formats ∧ imageOf geminiService base f = Some imageUrl
                ∧ b = bannerOf f imageUrl.
Proof.
  unfold fulfilledBanners. rewrite list_elem_of_omap. split.
  - intros (f & Hin & Hb). destruct (imageOf geminiService base f) as [u|] eqn:Hu;
      [|done]. injection Hb as <-. by exists f, u.
  - intros (f & u & Hin & Hu & ->). exists f. by rewrite Hu.
Qed.

(** The banners are those of a sublist of the formats, one by one and in
    the same order. *)
Lemma fulfilledBanners_ordered formats :
  ∃ chosen, chosen `sublist_of` formats ∧
    Forall2 (λ b f, ∃ imageUrl, imageOf geminiService base f = Some imageUrl
                                ∧ b = bannerOf f imageUrl)
      (fulfilledBanners geminiService base formats) chosen.
Proof.
  unfold fulfilledBanners.
  induction formats as [|f formats (chosen & Hsub & Hall)].
  - exists []. by split.
  - cbn. destruct (imageOf geminiService base f) as [u|] eqn:Hu; cbn.
    + exists (f :: chosen). split; [by apply sublist_skip|].
      constructor; [by exists u | done].
    + exists chosen. split; [by apply sublist_cons | done].
Qed.

End RequestFacts.

(** ** The configured formats *)

Ltac enum_format H :=
  unfold bannerFormats in H;
  repeat (apply elem_of_cons in H; destruct H as [->|H]);
  [.. | by apply elem_of_nil in H].

Lemma format_of_ratio f f' :
  f ∈ bannerFormats → f' ∈ bannerFormats →
  ratioText (BannerFormat.aspectRatio f') = ratioText (BannerFormat.aspectRatio f) →
  f' = f.
Proof.
  intros Hf Hf' Heq. enum_format Hf; enum_format Hf';
    first [reflexivity | vm_compute in Heq; discriminate].
Qed.

Lemma format_of_name f f' :
  f ∈ bannerFormats → f' ∈ bannerFormats →
  BannerFormat.name f' = BannerFormat.name f → f' = f.
Proof.
  intros Hf Hf' Heq. enum_format Hf; enum_format Hf';
    first [reflexivity | vm_compute in Heq; discriminate].
Qed.

(** ** Occurrences in a prompt *)

Lemma contains_here x rest : contains x (x ++ rest).
Proof. by exists [], rest. Qed.

Lemma contains_end x : contains x x.
Proof. exists [], []. by rewrite app_nil_r. Qed.

Lemma contains_skip x a rest : contains x rest → contains x (a ++ rest).
Proof.
  intros (pre & post & ->). exists (a ++ pre), post. by rewrite <- app_assoc.
Qed.

Lemma contains_front x a rest : contains x a → contains x (a ++ rest).
Proof.
  intros (pre & post & ->). exists pre, (post ++ rest). by rewrite <- !app_assoc.
Qed.

Lemma basePrompt_preamble description url fragment :
  contains preamble (basePrompt description url fragment).
Proof.
  exists [], (nl ++ lit "      " ++ nl
    ++ lit "      Product Description: " ++ dq ++ description ++ dq ++ nl
    ++ lit "      Product Website (for context): " ++ dq ++ url ++ dq ++ nl
    ++ nl
    ++ lit "      IMPORTANT DESIGN STYLE: " ++ fragment ++ nl
    ++ lit "    ").
  unfold basePrompt, preamble. rewrite <- !app_assoc. reflexivity.
Qed.

(** What the prompt for [format] is made of. *)
Lemma formatPrompt_parts c format :
  let prompt := formatPrompt (roundBase c) format in
  contains preamble prompt
  ∧ contains (productDescription c) prompt
  ∧ contains (productUrl c) prompt
  ∧ contains (DesignTemplate.promptFragment (selectedTemplate c)) prompt
  ∧ contains (ratioText (BannerFormat.aspectRatio format)) prompt
  ∧ contains (BannerFormat.name format) prompt.
Proof.
  cbv zeta. unfold formatPrompt. repeat apply conj.
  1: apply contains_front; unfold roundBase; apply basePrompt_preamble.
  1-3: apply contains_front; unfold roundBase, basePrompt.
  all: repeat first [apply contains_here | apply contains_end | apply contains_skip].
Qed.

Lemma length_fulfilledBanners_filter geminiService base formats :
  length (fulfilledBanners geminiService base formats)
  = length (filter (λ f, is_Some (imageOf geminiService base f)) formats).
Proof.
  unfold fulfilledBanners.
  induction formats as [|f formats IH]; [done|].
  cbn [omap list_omap]. cbn [omap list_omap] in IH. rewrite filter_cons.
  destruct (imageOf geminiService base f) as [u|]; cbn [fmap option_fmap option_map].
  - rewrite decide_True by eauto. cbn. by rewrite IH.
  - rewrite decide_False by (by intros [? ?]). done.
Qed.

(** A round that reaches aggregation completes, and displays the banners
    of the fulfilled requests. *)
Lemma aggregation_displays_fulfilled geminiService during order w :
  accepted (app w) →
  firstThrow geminiService (roundBase (app w)) bannerFormats = None →
  everyRequestSettles order →
  ∃ w', generateBanners geminiService during order w = Normal () w'
    ∧ generatedBanners (app w')
      = fulfilledBanners geminiService (roundBase (app w)) bannerFormats.
Proof.
  intros Hacc Hthrow Hsettle.
  rewrite (generateBanners_accepted _ _ _ _ Hacc). unfold roundOutcome.
  rewrite Hthrow. rewrite decide_True by done.
  eexists. split; [reflexivity|]. cbn [app].
  by destruct (length _ <? length bannerFormats).
Qed.

(** The requests an accepted call sends: one per format of a prefix of the
    configuration, all five unless a call throws, each with the prompt
    composed from the signals as they stand at the call. *)
Lemma prompts_of_round geminiService during order w :
  accepted (app w) →
  ∃ sent, calls (worldOf (generateBanners geminiService during order w)) = calls w ++ sent
    ∧ sent ≠ []
    ∧ (firstThrow geminiService (roundBase (app w)) bannerFormats = None →
       length sent = length bannerFormats)
    ∧ (∀ i call, sent !! i = Some call →
         ∃ f, bannerFormats !! i = Some f
              ∧ aspectRatioArg call = BannerFormat.aspectRatio f
              ∧ promptArg call = formatPrompt (roundBase (app w)) f).
Proof.
  intros Hacc.
  exists ((λ f, mkCall (afterAcceptance (app w)) (formatPrompt (roundBase (app w)) f)
                  (BannerFormat.aspectRatio f))
          <$> dispatched geminiService (roundBase (app w)) bannerFormats).
  split; [|split; [|split]].
  - rewrite (generateBanners_accepted _ _ _ _ Hacc). unfold roundOutcome.
    destruct (firstThrow _ _ _); [done|]. by destruct (decide _).
  - intros Hnil%fmap_nil_inv. by apply dispatched_nonempty in Hnil.
  - intros Hthrow. by rewrite length_fmap, dispatched_all.
  - intros i call Hcall. rewrite list_lookup_fmap in Hcall.
    destruct (dispatched _ _ _ !! i) as [f|] eqn:Hf; [|done].
    injection Hcall as <-. exists f. by apply dispatched_lookup in Hf.
Qed.

(** ** The properties of the specification *)

(** C1. When the in-progress flag is set, or the product description is
    empty once trimmed, [generateBanners] returns without raising and
    leaves the whole world as it was: the loading flag, the error message,
    the displayed banners, the description, the URL and the selected
    template are unchanged, no request is sent and nothing is logged. *)
Theorem generateBanners_guard_noop geminiService during order w :
  isLoading (app w) = true ∨ trim (productDescription (app w)) = [] →
  generateBanners geminiService during order w = Normal () w.
Proof. apply generateBanners_blocked. Qed.

Lemma generateBanners_guard_noop_witness :
  generateBanners alwaysSucceeds [] [0; 1; 2; 3; 4] busyWorld = Normal () busyWorld
  ∧ generateBanners alwaysSucceeds [] [0; 1; 2; 3; 4] blankWorld = Normal () blankWorld.
Proof.
  split.
  - apply (generateBanners_guard_noop alwaysSucceeds [] [0; 1; 2; 3; 4] busyWorld).
    left. reflexivity.
  - apply (generateBanners_guard_noop alwaysSucceeds [] [0; 1; 2; 3; 4] blankWorld).
    right. vm_compute. reflexivity.
Defined.

(** C2. In a round that reaches aggregation (no call throws and every
    request settles), the error message is null exactly when all 5 formats
    succeeded, and with X < 5 fulfilled requests it is the string
    "Could not generate all banner formats. Only X of 5 were successful.". *)
Theorem error_summary_counts geminiService during order w :
  accepted (app w) →
  firstThrow geminiService (roundBase (app w)) bannerFormats = None →
  everyRequestSettles order →
  ∃ w', generateBanners geminiService during order w = Normal () w'
    ∧ let X := length (filter (λ f, is_Some (imageOf geminiService (roundBase (app w)) f))
                         bannerFormats) in
      (error (app w') = None ↔ X = 5)
      ∧ (X < 5 → error (app w')
                 = Some (lit "Could not generate all banner formats. Only "
                         ++ numberToString X ++ lit " of 5 were successful.")).
Proof.
  intros Hacc Hthrow Hsettle.
  rewrite (generateBanners_accepted _ _ _ _ Hacc). unfold roundOutcome.
  rewrite Hthrow. rewrite decide_True by done.
  eexists. split; [reflexivity|]. cbv zeta. cbn [app].
  rewrite <- length_fulfilledBanners_filter.
  set (banners := fulfilledBanners _ _ _).
  pose proof (length_fulfilledBanners geminiService (roundBase (app w)) bannerFormats)
    as Hle. fold banners in Hle.
  change (length bannerFormats) with 5 in *.
  destruct (length banners <? 5) eqn:Hlt.
  - apply Nat.ltb_lt in Hlt.
    cbn [error set_error set_isLoading set_generatedBanners].
    split; [split; [done | lia]|].
    intros _. unfold errorSummary. do 3 f_equal.
  - apply Nat.ltb_ge in Hlt.
    cbn [error set_error set_isLoading set_generatedBanners].
    rewrite error_during.
    cbn [error set_error set_isLoading set_generatedBanners afterAcceptance].
    split; [split; [lia | done] | lia].
Qed.

Lemma error_summary_counts_witness :
  ∃ w', generateBanners (rejectsFor [R1_1; R9_16]) [] [4; 2; 0; 1; 3] freshWorld
        = Normal () w'
    ∧ length (generatedBanners (app w')) = 3
    ∧ error (app w')
      = Some (lit "Could not generate all banner formats. Only 3 of 5 were successful.").
Proof.
  destruct (error_summary_counts (rejectsFor [R1_1; R9_16]) [] [4; 2; 0; 1; 3] freshWorld)
    as (w' & Hrun & _ & Hmsg).
  - split; reflexivity.
  - reflexivity.
  - apply (bool_decide_unpack (everyRequestSettles _)). vm_compute. exact I.
  - exists w'. split; [exact Hrun|]. split.
    + vm_compute in Hrun. injection Hrun as <-. reflexivity.
    + apply Hmsg. vm_compute. lia.
Defined.

(** C3. A call that passes the guard never raises, and whenever it
    completes the loading flag is false; it completes when every request
    settles (full success, partial failure, total failure) and when a call
    of the service throws outside the per-request handling. *)
Theorem loading_flag_released geminiService during order w :
  accepted (app w) →
  (∀ e w', generateBanners geminiService during order w ≠ Throw e w')
  ∧ (∀ w', generateBanners geminiService during order w = Normal () w' →
           isLoading (app w') = false)
  ∧ (everyRequestSettles order →
     ∃ w', generateBanners geminiService during order w = Normal () w')
  ∧ (∀ e, firstThrow geminiService (roundBase (app w)) bannerFormats = Some e →
     ∃ w', generateBanners geminiService during order w = Normal () w').
Proof.
  intros Hacc. rewrite (generateBanners_accepted _ _ _ _ Hacc).
  unfold roundOutcome.
  destruct (firstThrow _ _ _) as [e|]; [|destruct (decide _) as [Hs|Hs]];
    (split; [done|]); (split; [|split]); try done; try by eauto.
  - by intros w' [= <-].
  - by intros w' [= <-].
Qed.

Lemma loading_flag_released_witness :
  (∃ w', generateBanners alwaysSucceeds [] [0; 1; 2; 3; 4] freshWorld = Normal () w'
         ∧ isLoading (app w') = false)
  ∧ (∃ w', generateBanners (rejectsFor [R16_9; R4_3; R1_1; R3_4; R9_16]) []
             [3; 4; 0; 2; 1] freshWorld = Normal () w'
           ∧ isLoading (app w') = false)
  ∧ (∃ w', generateBanners (throwsFor R16_9 Undefined) [] [] freshWorld = Normal () w'
           ∧ isLoading (app w') = false).
Proof.
  split; [|split].
  - destruct (loading_flag_released alwaysSucceeds [] [0; 1; 2; 3; 4] freshWorld)
      as (_ & Hflag & Hdone & _); [split; reflexivity|].
    destruct Hdone as [w' Hrun].
    { apply (bool_decide_unpack (everyRequestSettles _)). vm_compute. exact I. }
    exists w'. split; [exact Hrun | exact (Hflag w' Hrun)].
  - destruct (loading_flag_released (rejectsFor [R16_9; R4_3; R1_1; R3_4; R9_16]) []
                [3; 4; 0; 2; 1] freshWorld)
      as (_ & Hflag & Hdone & _); [split; reflexivity|].
    destruct Hdone as [w' Hrun].
    { apply (bool_decide_unpack (everyRequestSettles _)). vm_compute. exact I. }
    exists w'. split; [exact Hrun | exact (Hflag w' Hrun)].
  - destruct (loading_flag_released (throwsFor R16_9 Undefined) [] [] freshWorld)
      as (_ & Hflag & _ & Hthrown); [split; reflexivity|].
    destruct (Hthrown Undefined) as [w' Hrun]; [reflexivity|].
    exists w'. split; [exact Hrun | exact (Hflag w' Hrun)].
Defined.

(** C7. Every request of an accepted call is sent with the loading flag
    already true, the error message null and the displayed collection
    empty, and at least one request is sent; what the call leaves behind
    does not depend on the error or the banners that were on display
    before it, so stale results never mix with new ones. *)
Theorem round_starts_clean geminiService during order w :
  accepted (app w) →
  ∃ sent, sent ≠ []
    ∧ calls (worldOf (generateBanners geminiService during order w)) = calls w ++ sent
    ∧ (∀ call, call ∈ sent →
         isLoading (signalsSeen call) = true
         ∧ error (signalsSeen call) = None
         ∧ generatedBanners (signalsSeen call) = [])
    ∧ (∀ staleBanners staleError,
         worldOf (generateBanners geminiService during order
                    (mkWorld (set_error staleError
                                (set_generatedBanners staleBanners (app w)))
                       (console w) (calls w)))
         = worldOf (generateBanners geminiService during order w)).
Proof.
  intros Hacc.
  exists ((λ f, mkCall (afterAcceptance (app w)) (formatPrompt (roundBase (app w)) f)
                  (BannerFormat.aspectRatio f))
          <$> dispatched geminiService (roundBase (app w)) bannerFormats).
  split; [|split; [|split]].
  - intros Hnil%fmap_nil_inv. by apply dispatched_nonempty in Hnil.
  - rewrite (generateBanners_accepted _ _ _ _ Hacc). unfold roundOutcome.
    destruct (firstThrow _ _ _); [done|]. by destruct (decide _).
  - by intros call (f & -> & _)%list_elem_of_fmap.
  - intros staleBanners staleError.
    rewrite (generateBanners_accepted _ _ _ w Hacc).
    rewrite generateBanners_accepted by exact Hacc.
    reflexivity.
Qed.

Lemma round_starts_clean_witness :
  ∃ w', generateBanners (rejectsFor [R4_3]) [] [0; 1; 2; 3; 4] staleWorld = Normal () w'
    ∧ length (calls w') = 5
    ∧ (∀ call, call ∈ calls w' → generatedBanners (signalsSeen call) = []
                                  ∧ error (signalsSeen call) = None)
    ∧ w' = worldOf (generateBanners (rejectsFor [R4_3]) [] [0; 1; 2; 3; 4] freshWorld).
Proof.
  destruct (round_starts_clean (rejectsFor [R4_3]) [] [0; 1; 2; 3; 4] freshWorld)
    as (sent & _ & Hcalls & Hclean & Hstale); [split; reflexivity|].
  specialize (Hstale [Banner.mk (lit "old.png") (lit "1:1") (lit "Square")]
                (Some (lit "old error"))).
  change (mkWorld _ _ _) with staleWorld in Hstale.
  destruct (generateBanners (rejectsFor [R4_3]) [] [0; 1; 2; 3; 4] staleWorld)
    as [[] w'| |] eqn:Hrun; [|vm_compute in Hrun; discriminate..].
  exists w'. cbn [worldOf] in Hstale. rewrite <- Hstale in Hcalls.
  cbn [calls freshWorld app_nil_l] in Hcalls. rewrite app_nil_l in Hcalls.
  split; [reflexivity|]. split; [|split; [|exact Hstale]].
  - vm_compute in Hrun. injection Hrun as <-. reflexivity.
  - intros call Hin. rewrite Hcalls in Hin.
    destruct (Hclean call Hin) as (_ & He & Hb). by split.
Defined.

(** C9. A failure outside the per-request handling is not propagated.
    Whatever the [try] block was doing when it threw, the call ends
    normally with the error set to the message of the thrown [Error], or
    to "An unknown error occurred during generation." for any other thrown
    value, and with the displayed banners as they stood at the throw.  When
    it is a call of the service that throws during the dispatch, they are
    empty. *)
Theorem outer_failure_caught :
  (∀ (body : M ()) w1 w2 e,
     body w1 = Throw e w2 →
     ∃ w3, tryCatchFinally body catchBlock finallyBlock w1 = Normal () w3
       ∧ (∀ message, e = ErrorObject message → error (app w3) = Some message)
       ∧ (instanceofError e = false →
          error (app w3) = Some (lit "An unknown error occurred during generation."))
       ∧ generatedBanners (app w3) = generatedBanners (app w2)
       ∧ isLoading (app w3) = false)
  ∧ (∀ geminiService during order w e,
       accepted (app w) →
       firstThrow geminiService (roundBase (app w)) bannerFormats = Some e →
       ∃ w', generateBanners geminiService during order w = Normal () w'
         ∧ (∀ message, e = ErrorObject message → error (app w') = Some message)
         ∧ (instanceofError e = false →
            error (app w') = Some (lit "An unknown error occurred during generation."))
         ∧ generatedBanners (app w') = []
         ∧ isLoading (app w') = false).
Proof.
  split.
  - intros body w1 w2 e Hbody. unfold tryCatchFinally. rewrite Hbody.
    eexists. split; [reflexivity|]. cbn [app].
    split; [by intros message ->|]. split; [by destruct e|]. by split.
  - intros geminiService during order w e Hacc Hthrow.
    rewrite (generateBanners_accepted _ _ _ _ Hacc). unfold roundOutcome.
    rewrite Hthrow. eexists. split; [reflexivity|]. cbn [app].
    split; [by intros message ->|]. split; [by destruct e|]. by split.
Qed.

Lemma outer_failure_caught_witness :
  (∃ w', generateBanners (throwsFor R1_1 (ErrorObject (lit "API key missing"))) []
           [0; 1] staleWorld = Normal () w'
         ∧ error (app w') = Some (lit "API key missing")
         ∧ generatedBanners (app w') = [])
  ∧ (∃ w', generateBanners (throwsFor R1_1 (StringValue (lit "oops"))) []
             [0; 1] staleWorld = Normal () w'
           ∧ error (app w') = Some (lit "An unknown error occurred during generation.")
           ∧ generatedBanners (app w') = []).
Proof.
  split.
  - destruct (proj2 outer_failure_caught
                (throwsFor R1_1 (ErrorObject (lit "API key missing"))) [] [0; 1]
                staleWorld (ErrorObject (lit "API key missing")))
      as (w' & Hrun & Hmsg & _ & Hbanners & _);
      [split; reflexivity | reflexivity |].
    exists w'. split; [exact Hrun|]. split; [by apply Hmsg | exact Hbanners].
  - destruct (proj2 outer_failure_caught
                (throwsFor R1_1 (StringValue (lit "oops"))) [] [0; 1]
                staleWorld (StringValue (lit "oops")))
      as (w' & Hrun & _ & Hmsg & Hbanners & _);
      [split; reflexivity | reflexivity |].
    exists w'. split; [exact Hrun|]. split; [by apply Hmsg | exact Hbanners].
Defined.

(** C10. [updateDescription], [updateUrl] and [selectTemplate] each write
    their own signal and leave the five others as they were. *)
Theorem handlers_frame c event template :
  (productDescription (updateDescription event c) = Event.targetValue event
   ∧ productUrl (updateDescription event c) = productUrl c
   ∧ selectedTemplate (updateDescription event c) = selectedTemplate c
   ∧ isLoading (updateDescription event c) = isLoading c
   ∧ error (updateDescription event c) = error c
   ∧ generatedBanners (updateDescription event c) = generatedBanners c)
  ∧ (productUrl (updateUrl event c) = Event.targetValue event
     ∧ productDescription (updateUrl event c) = productDescription c
     ∧ selectedTemplate (updateUrl event c) = selectedTemplate c
     ∧ isLoading (updateUrl event c) = isLoading c
     ∧ error (updateUrl event c) = error c
     ∧ generatedBanners (updateUrl event c) = generatedBanners c)
  ∧ (selectedTemplate (selectTemplate template c) = template
     ∧ productDescription (selectTemplate template c) = productDescription c
     ∧ productUrl (selectTemplate template c) = productUrl c
     ∧ isLoading (selectTemplate template c) = isLoading c
     ∧ error (selectTemplate template c) = error c
     ∧ generatedBanners (selectTemplate template c) = generatedBanners c).
Proof. done. Qed.

(** C4, as stated, fails: when the call for the last format throws, the
    four requests sent before it are fulfilled and yet the round completes
    with an empty collection. *)
Lemma bannersMatchFulfilledRequests_counterexample :
  accepted (app freshWorld)
  ∧ length (fulfilledBanners (throwsFor R9_16 Undefined) (roundBase (app freshWorld))
              (dispatched (throwsFor R9_16 Undefined) (roundBase (app freshWorld))
                 bannerFormats)) = 4
  ∧ (∃ w', generateBanners (throwsFor R9_16 Undefined) [] [0; 1; 2; 3] freshWorld
           = Normal () w'
         ∧ generatedBanners (app w') = [])
  ∧ ¬ bannersMatchFulfilledRequests (throwsFor R9_16 Undefined) [] [0; 1; 2; 3]
        freshWorld.
Proof.
  assert (Hrun : ∃ w', generateBanners (throwsFor R9_16 Undefined) [] [0; 1; 2; 3]
                         freshWorld = Normal () w'
                       ∧ generatedBanners (app w') = []).
  { eexists. split; [vm_compute; reflexivity | reflexivity]. }
  split; [split; reflexivity|]. split; [reflexivity|]. split; [exact Hrun|].
  destruct Hrun as (w' & Hrun & Hempty). intros Hclaim.
  specialize (Hclaim w' Hrun). rewrite Hempty in Hclaim.
  apply (f_equal length) in Hclaim. vm_compute in Hclaim. discriminate.
Qed.

(** C4, amended.  After every completed round the displayed collection has
    at most 5 banners and each carries the aspect ratio and the name of a
    configured format.  When the round reached aggregation it is one banner
    per fulfilled request, in the order of the formats, and nothing else;
    when a call of the service threw during the dispatch it is empty,
    whatever the requests sent before the throw do.  The round completes
    whenever every request settles. *)
Theorem displayed_banners geminiService during order w :
  accepted (app w) →
  (∀ w', generateBanners geminiService during order w = Normal () w' →
     (firstThrow geminiService (roundBase (app w)) bannerFormats = None →
      generatedBanners (app w')
      = fulfilledBanners geminiService (roundBase (app w)) bannerFormats)
     ∧ (firstThrow geminiService (roundBase (app w)) bannerFormats ≠ None →
        generatedBanners (app w') = [])
     ∧ length (generatedBanners (app w')) ≤ 5
     ∧ (∀ b, b ∈ generatedBanners (app w') →
          ∃ f, f ∈ bannerFormats
               ∧ Banner.aspectRatio b = ratioText (BannerFormat.aspectRatio f)
               ∧ Banner.name b = BannerFormat.name f))
  ∧ (everyRequestSettles order →
     ∃ w', generateBanners geminiService during order w = Normal () w').
Proof.
  intros Hacc. rewrite (generateBanners_accepted _ _ _ _ Hacc).
  unfold roundOutcome.
  destruct (firstThrow _ _ _) as [e|]; [|destruct (decide _) as [Hs|Hs]].
  - split; [|by eauto]. intros w' [= <-]. cbn [app].
    split; [done|]. split; [done|]. split; [cbn; lia|].
    by intros b ?%elem_of_nil.
  - split; [|by eauto]. intros w' [= <-]. cbn [app].
    set (banners := fulfilledBanners _ _ _).
    assert (Hshown : ∀ c, generatedBanners
      (set_isLoading false
         (if length banners <? length bannerFormats
          then set_error (Some (errorSummary (length banners) (length bannerFormats)))
                 (set_generatedBanners banners c)
          else set_generatedBanners banners c)) = banners).
    { intros c. by destruct (length banners <? length bannerFormats). }
    rewrite Hshown.
    split; [done|]. split; [done|]. split.
    + apply (length_fulfilledBanners geminiService (roundBase (app w)) bannerFormats).
    + intros b (f & u & Hf & _ & ->)%elem_of_fulfilledBanners. by exists f.
  - split; [done|]. by intros ?.
Qed.

Lemma displayed_banners_witness :
  ∃ w', generateBanners (rejectsFor [R1_1; R9_16]) [] [4; 3; 2; 1; 0] staleWorld
        = Normal () w'
    ∧ generatedBanners (app w')
      = [Banner.mk (taggedUrl R16_9) (lit "16:9") (lit "Leaderboard / Banner");
         Banner.mk (taggedUrl R4_3) (lit "4:3") (lit "Medium Rectangle");
         Banner.mk (taggedUrl R3_4) (lit "3:4") (lit "Portrait")].
Proof.
  destruct (displayed_banners (rejectsFor [R1_1; R9_16]) [] [4; 3; 2; 1; 0] staleWorld)
    as (Hshown & Hdone); [split; reflexivity|].
  destruct Hdone as [w' Hrun].
  { apply (bool_decide_unpack (everyRequestSettles _)). vm_compute. exact I. }
  exists w'. split; [exact Hrun|].
  destruct (Hshown w' Hrun) as (-> & _); reflexivity.
Defined.

(** C5. In a round that reaches aggregation the displayed banners are those
    of a sublist of the configured formats, banner by banner in the order
    of the configuration, and the outcome is the same for every order in
    which the requests complete. *)
Theorem banners_in_submission_order geminiService during order w :
  accepted (app w) →
  firstThrow geminiService (roundBase (app w)) bannerFormats = None →
  everyRequestSettles order →
  ∃ w', generateBanners geminiService during order w = Normal () w'
    ∧ (∃ chosen, chosen `sublist_of` bannerFormats
         ∧ Forall2 (λ b f, ∃ imageUrl,
                      imageOf geminiService (roundBase (app w)) f = Some imageUrl
                      ∧ b = bannerOf f imageUrl)
             (generatedBanners (app w')) chosen)
    ∧ (∀ order', everyRequestSettles order' →
         generateBanners geminiService during order' w = Normal () w').
Proof.
  intros Hacc Hthrow Hsettle.
  destruct (aggregation_displays_fulfilled geminiService during order w Hacc Hthrow Hsettle)
    as (w' & Hrun & Hshown).
  exists w'. split; [exact Hrun|]. split.
  - rewrite Hshown. apply fulfilledBanners_ordered.
  - intros order' Hsettle'. rewrite <- Hrun.
    rewrite !(generateBanners_accepted _ _ _ _ Hacc). unfold roundOutcome.
    rewrite Hthrow. by rewrite !decide_True.
Qed.

Lemma banners_in_submission_order_witness :
  ∃ w', generateBanners (rejectsFor [R1_1]) [] [4; 3; 2; 1; 0] freshWorld = Normal () w'
    ∧ generateBanners (rejectsFor [R1_1]) [] [0; 1; 2; 3; 4] freshWorld = Normal () w'
    ∧ Banner.name <$> generatedBanners (app w')
      = [lit "Leaderboard / Banner"; lit "Medium Rectangle"; lit "Portrait";
         lit "Skyscraper"].
Proof.
  destruct (banners_in_submission_order (rejectsFor [R1_1]) [] [4; 3; 2; 1; 0] freshWorld)
    as (w' & Hrun & _ & Hany).
  - split; reflexivity.
  - reflexivity.
  - apply (bool_decide_unpack (everyRequestSettles _)). vm_compute. exact I.
  - exists w'. split; [exact Hrun|]. split.
    + apply Hany. apply (bool_decide_unpack (everyRequestSettles _)).
      vm_compute. exact I.
    + vm_compute in Hrun. injection Hrun as <-. reflexivity.
Defined.

(** C6. When the request for a format succeeds with an image URL, the
    banner made for it records that URL with the aspect ratio and the name
    of that very format, whatever the other requests do; and in a round
    that reaches aggregation this banner is displayed and is the only
    displayed banner with that aspect ratio or that name. *)
Theorem no_cross_format_mislabeling geminiService during order w f imageUrl :
  accepted (app w) →
  f ∈ bannerFormats →
  request geminiService (roundBase (app w)) f = Returns (Fulfills imageUrl) →
  (∀ w1, ∃ w2,
     bannerPromise geminiService (roundBase (app w)) f w1
     = Normal (Fulfills (Banner.mk imageUrl (ratioText (BannerFormat.aspectRatio f))
                           (BannerFormat.name f))) w2)
  ∧ (firstThrow geminiService (roundBase (app w)) bannerFormats = None →
     everyRequestSettles order →
     ∃ w', generateBanners geminiService during order w = Normal () w'
       ∧ Banner.mk imageUrl (ratioText (BannerFormat.aspectRatio f)) (BannerFormat.name f)
         ∈ generatedBanners (app w')
       ∧ (∀ b, b ∈ generatedBanners (app w') →
            Banner.aspectRatio b = ratioText (BannerFormat.aspectRatio f)
            ∨ Banner.name b = BannerFormat.name f →
            b = Banner.mk imageUrl (ratioText (BannerFormat.aspectRatio f))
                  (BannerFormat.name f))).
Proof.
  intros Hacc Hf Hreq.
  assert (Himg : imageOf geminiService (roundBase (app w)) f = Some imageUrl).
  { unfold imageOf. by rewrite Hreq. }
  split.
  - intros w1. unfold bannerPromise, mbind, M_bind, generateBannerImage.
    unfold request in Hreq. rewrite Hreq. by eexists.
  - intros Hthrow Hsettle.
    destruct (aggregation_displays_fulfilled geminiService during order w Hacc Hthrow Hsettle)
      as (w' & Hrun & Hshown).
    exists w'. split; [exact Hrun|]. rewrite Hshown. split.
    + apply elem_of_fulfilledBanners. by exists f, imageUrl.
    + intros b (f' & u' & Hf' & Himg' & ->)%elem_of_fulfilledBanners Hsame.
      assert (f' = f) as ->.
      { destruct Hsame as [Hr|Hn];
          [by apply format_of_ratio | by apply format_of_name]. }
      rewrite Himg in Himg'. by injection Himg' as <-.
Qed.

Lemma no_cross_format_mislabeling_witness :
  ∃ w', generateBanners (rejectsFor [R16_9; R9_16]) [] [2; 0; 4; 1; 3] freshWorld
        = Normal () w'
    ∧ Banner.mk (taggedUrl R1_1) (lit "1:1") (lit "Square") ∈ generatedBanners (app w').
Proof.
  destruct (no_cross_format_mislabeling (rejectsFor [R16_9; R9_16]) [] [2; 0; 4; 1; 3]
              freshWorld
              (BannerFormat.mk (lit "Square") R1_1 (lit "Ideal for social media feeds"))
              (taggedUrl R1_1))
    as (_ & Hround).
  - split; reflexivity.
  - apply (list_elem_of_lookup_2 bannerFormats 2). reflexivity.
  - reflexivity.
  - destruct Hround as (w' & Hrun & Hin & _).
    + reflexivity.
    + apply (bool_decide_unpack (everyRequestSettles _)). vm_compute. exact I.
    + exists w'. split; [exact Hrun | exact Hin].
Defined.

(** C8. Every request of an accepted call is sent for a configured format,
    in the order of the configuration and for all five unless a call
    throws, and its prompt contains the fixed preamble, the product
    description, the product URL, the prompt fragment of the selected
    template, and the aspect ratio and the name of that format.  In
    particular, after [selectTemplate] every prompt of the round contains
    the fragment of the template just selected. *)
Theorem prompts_carry_inputs geminiService during order w :
  accepted (app w) →
  (∃ sent, calls (worldOf (generateBanners geminiService during order w)) = calls w ++ sent
     ∧ sent ≠ []
     ∧ (firstThrow geminiService (roundBase (app w)) bannerFormats = None →
        length sent = 5)
     ∧ (∀ i call, sent !! i = Some call →
          ∃ f, bannerFormats !! i = Some f
               ∧ aspectRatioArg call = BannerFormat.aspectRatio f
               ∧ contains preamble (promptArg call)
               ∧ contains (productDescription (app w)) (promptArg call)
               ∧ contains (productUrl (app w)) (promptArg call)
               ∧ contains (DesignTemplate.promptFragment (selectedTemplate (app w)))
                   (promptArg call)
               ∧ contains (ratioText (BannerFormat.aspectRatio f)) (promptArg call)
               ∧ contains (BannerFormat.name f) (promptArg call)))
  ∧ (∀ template,
       let selected := mkWorld (selectTemplate template (app w)) (console w) (calls w) in
       ∃ sent, calls (worldOf (generateBanners geminiService during order selected))
               = calls w ++ sent
         ∧ sent ≠ []
         ∧ (firstThrow geminiService (roundBase (app selected)) bannerFormats = None →
            length sent = 5)
         ∧ (∀ call, call ∈ sent →
              contains (DesignTemplate.promptFragment template) (promptArg call))).
Proof.
  intros Hacc. split.
  - destruct (prompts_of_round geminiService during order w Hacc)
      as (sent & Hcalls & Hne & Hall & Hsent).
    exists sent. split; [done|]. split; [done|]. split; [done|].
    intros i call (f & Hf & Hr & ->)%Hsent. exists f.
    split; [done|]. split; [done|]. apply formatPrompt_parts.
  - intros template selected.
    assert (Hacc' : accepted (app selected)) by exact Hacc.
    destruct (prompts_of_round geminiService during order selected Hacc')
      as (sent & Hcalls & Hne & Hall & Hsent).
    exists sent. split; [done|]. split; [done|]. split; [done|].
    intros call (i & (f & _ & _ & ->)%Hsent)%list_elem_of_lookup_1.
    apply (formatPrompt_parts (app selected) f).
Qed.

Lemma prompts_carry_inputs_witness :
  ∃ sent, calls (worldOf (generateBanners alwaysSucceeds [] [0; 1; 2; 3; 4]
                            (mkWorld (selectTemplate
                                        (DesignTemplate.mk (lit "Neon") [] []
                                           (lit "Use neon colours."))
                                        initialComponent) [] []))) = sent
    ∧ length sent = 5
    ∧ ∀ call, call ∈ sent → contains (lit "Use neon colours.") (promptArg call).
Proof.
  destruct (prompts_carry_inputs alwaysSucceeds [] [0; 1; 2; 3; 4] freshWorld)
    as (_ & Hselected); [split; reflexivity|].
  destruct (Hselected (DesignTemplate.mk (lit "Neon") [] [] (lit "Use neon colours.")))
    as (sent & Hcalls & _ & Hall & Hfragment).
  exists sent. split; [exact Hcalls|]. split; [|exact Hfragment].
  apply Hall. reflexivity.
Defined.

(** ** Further properties of the round *)

Lemma trimStart_nil s :
  trimStart s = [] ↔ Forall (λ c, isWhiteSpace c = true) s.
Proof.
  induction s as [|c s IH]; [done|]. cbn [trimStart].
  destruct (isWhiteSpace c) eqn:Hc.
  - rewrite IH. split; [by constructor | by inversion 1].
  - split; [done|]. inversion 1; congruence.
Qed.

Lemma Forall_trimStart s :
  Forall (λ c, isWhiteSpace c = true) (trimStart s)
  ↔ Forall (λ c, isWhiteSpace c = true) s.
Proof.
  induction s as [|c s IH]; [done|]. cbn [trimStart].
  destruct (isWhiteSpace c) eqn:Hc; [|done].
  rewrite IH. split; [by constructor | by inversion 1].
Qed.

(** [trim] leaves nothing exactly of the strings made of white space. *)
Lemma trim_nil s :
  trim s = [] ↔ Forall (λ c, isWhiteSpace c = true) s.
Proof.
  unfold trim, trimEnd.
  rewrite <- Forall_trimStart, <- (Forall_reverse _ (trimStart s)), <- trimStart_nil.
  split; [|by intros ->].
  intros H. apply (f_equal reverse) in H. by rewrite reverse_involutive in H.
Qed.

Lemma inputsOf_during during : ∀ c c',
  inputsOf c = inputsOf c' →
  inputsOf (foldl handle c during) = inputsOf (foldl handle c' during).
Proof.
  induction during as [|a during IH]; intros c c' Heq; [done|].
  cbn [foldl]. apply IH. unfold inputsOf in *.
  destruct a; cbn; congruence.
Qed.

Section DispatchFacts.

Variable geminiService : jsstring → AspectRatio → ServiceReply.
Variable base : jsstring.

Lemma firstThrow_at pre f post e :
  (∀ g, g ∈ pre → ∃ p, request geminiService base g = Returns p) →
  request geminiService base f = Throws e →
  firstThrow geminiService base (pre ++ f :: post) = Some e
  ∧ dispatched geminiService base (pre ++ f :: post) = pre ++ [f].
Proof.
  intros Hpre Hf. induction pre as [|g pre IH]; cbn.
  - by rewrite Hf.
  - destruct (Hpre g) as [p ->]; [apply elem_of_cons; by left|].
    destruct IH as [-> ->]; [|done].
    intros g' Hg'. apply Hpre, elem_of_cons. by right.
Qed.

Lemma dispatched_prefix formats :
  dispatched geminiService base formats `prefix_of` formats.
Proof.
  induction formats as [|f formats IH]; [done|]. cbn.
  destruct (request geminiService base f).
  - by exists formats.
  - by apply prefix_cons.
Qed.

Lemma rejectionLog_mapped formats :
  firstThrow geminiService base formats = None →
  rejectionLog (settled <$> (mappedPromise geminiService base <$> formats))
  = omap (failureOf geminiService base) formats
  ∧ length (fulfilledBanners geminiService base formats)
    + length (omap (failureOf geminiService base) formats) = length formats.
Proof.
  unfold rejectionLog, fulfilledBanners.
  induction formats as [|f formats IH]; [done|].
  cbn [firstThrow fmap list_fmap omap list_omap length].
  assert (Hfail : failureOf geminiService base f
                  = match request geminiService base f with
                    | Returns (Rejects reason) => Some (FailedToGenerate reason)
                    | _ => None
                    end) by reflexivity.
  rewrite !Hfail. unfold mappedPromise at 1. unfold imageOf at 1.
  destruct (request geminiService base f) as [e|[url|reason]]; [done|..];
    intros [IH1 IH2]%IH;
    cbn [settled then_ fmap option_fmap option_map length]; rewrite IH1;
    (split; [done | lia]).
Qed.

End DispatchFacts.

(** The loading flag of a suspended round. *)
Lemma suspended_state geminiService during order w w' :
  accepted (app w) →
  generateBanners geminiService during order w = Suspended w' →
  isLoading (app w') = true
  ∧ inputsOf (app w') = inputsOf (foldl handle (app w) during).
Proof.
  intros Hacc Hrun.
  rewrite (generateBanners_accepted _ _ _ _ Hacc) in Hrun.
  unfold roundOutcome in Hrun.
  destruct (firstThrow _ _ _); [discriminate|].
  destruct (decide _); [discriminate|].
  injection Hrun as <-. cbn [app]. split.
  - by rewrite isLoading_during.
  - by apply inputsOf_during.
Qed.

(** The outcome of an accepted call reads the component through its three
    inputs only. *)
Lemma roundOutcome_inputs geminiService during order w v :
  inputsOf (app w) = inputsOf (app v) → console w = console v → calls w = calls v →
  roundOutcome geminiService during order w = roundOutcome geminiService during order v.
Proof.
  destruct w as [[d u b l e t] wl wk], v as [[d' u' b' l' e' t'] vl vk].
  unfold inputsOf. cbn [app console calls productDescription productUrl selectedTemplate].
  intros [= -> -> ->] -> ->. reflexivity.
Qed.

(** X1. [generateBanners] returns with the world untouched exactly when the
    loading flag is set or the product description holds nothing but white
    space; in every other state it changes the world. *)
Theorem ignored_exactly_when_guarded geminiService during order w :
  generateBanners geminiService during order w = Normal () w
  ↔ isLoading (app w) = true
    ∨ Forall (λ c, isWhiteSpace c = true) (productDescription (app w)).
Proof.
  split.
  - intros Hrun. destruct (isLoading (app w)) eqn:Hl; [by left|]. right.
    apply trim_nil.
    destruct (trim (productDescription (app w))) as [|c rest] eqn:Ht; [done|].
    exfalso.
    assert (Hacc : accepted (app w)) by (split; [done | by rewrite Ht]).
    destruct (prompts_of_round geminiService during order w Hacc)
      as (sent & Hcalls & Hne & _).
    rewrite Hrun in Hcalls. cbn [worldOf] in Hcalls. apply Hne.
    apply (app_inv_head (calls w)). by rewrite app_nil_r.
  - intros [Hl|Hws]; apply generateBanners_blocked;
      [by left | right; by apply trim_nil].
Qed.

(** X2. An accepted call stays suspended for ever exactly when no call of
    the service throws and some request never settles; the component then
    keeps showing the loading flag, no error and no banner, nothing was
    logged, and all five requests were sent. *)
Theorem suspended_when_request_never_settles geminiService during order w :
  accepted (app w) →
  ((∃ w', generateBanners geminiService during order w = Suspended w')
   ↔ firstThrow geminiService (roundBase (app w)) bannerFormats = None
     ∧ ¬ everyRequestSettles order)
  ∧ (∀ w', generateBanners geminiService during order w = Suspended w' →
       isLoading (app w') = true
       ∧ error (app w') = None
       ∧ generatedBanners (app w') = []
       ∧ console w' = console w
       ∧ length (calls w') = length (calls w) + 5).
Proof.
  intros Hacc. rewrite (generateBanners_accepted _ _ _ _ Hacc).
  unfold roundOutcome.
  destruct (firstThrow _ _ _) as [e|] eqn:Hthrow.
  { split; [|done]. split; [by intros [w' ?] | by intros [? _]]. }
  rewrite (dispatched_all _ _ _ Hthrow).
  destruct (decide _) as [Hs|Hs].
  - split; [|done]. split; [by intros [w' ?] | by intros [_ ?]].
  - split; [split; [done | by eauto]|].
    intros w' Hw'. injection Hw' as <-. cbn [app console calls].
    rewrite isLoading_during, error_during, generatedBanners_during.
    by rewrite length_app.
Qed.

Lemma suspended_when_request_never_settles_witness :
  ∃ w', generateBanners (rejectsFor [R4_3]) [] [0; 1; 2; 3] freshWorld = Suspended w'
    ∧ isLoading (app w') = true
    ∧ generatedBanners (app w') = [].
Proof.
  destruct (suspended_when_request_never_settles (rejectsFor [R4_3]) [] [0; 1; 2; 3]
              freshWorld) as (Hiff & Hstate); [split; reflexivity|].
  destruct (proj2 Hiff) as [w' Hrun].
  { split; [reflexivity|]. intros Hall.
    apply (bool_decide_pack (everyRequestSettles [0; 1; 2; 3])) in Hall.
    vm_compute in Hall. exact Hall. }
  exists w'. split; [exact Hrun|].
  destruct (Hstate w' Hrun) as (Hl & _ & Hb & _). by split.
Defined.

(** X3. While a round is suspended, a further [generateBanners], whatever
    edits came before it and whatever the service would do, returns at the
    guard and changes nothing: one round at most is in flight. *)
Theorem click_ignored_while_suspended
    geminiService during order w w' edits laterService laterDuring laterOrder :
  accepted (app w) →
  generateBanners geminiService during order w = Suspended w' →
  let busy := mkWorld (foldl handle (app w') edits) (console w') (calls w') in
  generateBanners laterService laterDuring laterOrder busy = Normal () busy.
Proof.
  intros Hacc Hrun busy. apply generateBanners_blocked. left. unfold busy.
  cbn [app]. rewrite isLoading_during.
  destruct (suspended_state geminiService during order w w' Hacc Hrun) as [-> _].
  done.
Qed.

Lemma click_ignored_while_suspended_witness :
  ∃ w', generateBanners alwaysSucceeds [] [0; 1] freshWorld = Suspended w'
    ∧ generateBanners (throwsFor R16_9 Undefined) [] [0; 1; 2; 3; 4]
        (mkWorld (foldl handle (app w') [UpdateUrl (Event.mk (lit "example.org"))])
           (console w') (calls w'))
      = Normal () (mkWorld (foldl handle (app w')
                              [UpdateUrl (Event.mk (lit "example.org"))])
                     (console w') (calls w')).
Proof.
  eexists. split; [vm_compute; reflexivity|].
  apply (click_ignored_while_suspended alwaysSucceeds [] [0; 1] freshWorld _
           [UpdateUrl (Event.mk (lit "example.org"))]).
  - split; reflexivity.
  - vm_compute. reflexivity.
Defined.

(** X4. The round never writes the three inputs.  Edits of the description,
    the URL and the template made while the round is suspended are all in
    place when it ends; a call that ends without suspending (a call of the
    service throws) leaves the inputs as they were at the click. *)
Theorem edits_survive_the_round geminiService during order w :
  accepted (app w) →
  (firstThrow geminiService (roundBase (app w)) bannerFormats = None →
   inputsOf (app (worldOf (generateBanners geminiService during order w)))
   = inputsOf (foldl handle (app w) during))
  ∧ (firstThrow geminiService (roundBase (app w)) bannerFormats ≠ None →
     inputsOf (app (worldOf (generateBanners geminiService during order w)))
     = inputsOf (app w)).
Proof.
  intros Hacc. rewrite (generateBanners_accepted _ _ _ _ Hacc).
  unfold roundOutcome.
  destruct (firstThrow _ _ _) as [e|]; [by split|].
  split; [|done]. intros _.
  assert (Hedit : inputsOf (foldl handle (afterAcceptance (app w)) during)
                  = inputsOf (foldl handle (app w) during))
    by by apply inputsOf_during.
  destruct (decide _); [|exact Hedit].
  cbn [worldOf app]. rewrite <- Hedit.
  by destruct (length _ <? length bannerFormats).
Qed.

Lemma edits_survive_the_round_witness :
  productUrl (app (worldOf (generateBanners alwaysSucceeds
                              [UpdateUrl (Event.mk (lit "shop.example"));
                               UpdateDescription (Event.mk [])]
                              [0; 1; 2; 3; 4] freshWorld)))
  = lit "shop.example"
  ∧ productDescription (app (worldOf (generateBanners alwaysSucceeds
                              [UpdateUrl (Event.mk (lit "shop.example"));
                               UpdateDescription (Event.mk [])]
                              [0; 1; 2; 3; 4] freshWorld)))
    = [].
Proof.
  destruct (edits_survive_the_round alwaysSucceeds
              [UpdateUrl (Event.mk (lit "shop.example")); UpdateDescription (Event.mk [])]
              [0; 1; 2; 3; 4] freshWorld) as (Hedits & _); [split; reflexivity|].
  specialize (Hedits eq_refl).
  split; [exact (f_equal (λ x, x.1.2) Hedits) | exact (f_equal (λ x, x.1.1) Hedits)].
Defined.

(** X5. The dispatch stops at the first call of the service that throws:
    the formats before it and the throwing one are requested, in order,
    the formats after it never are, and the console receives the thrown
    value and nothing else. *)
Theorem dispatch_stops_at_first_throw geminiService during order w pre f post e :
  accepted (app w) →
  bannerFormats = pre ++ f :: post →
  (∀ g, g ∈ pre → ∃ p, request geminiService (roundBase (app w)) g = Returns p) →
  request geminiService (roundBase (app w)) f = Throws e →
  ∃ w', generateBanners geminiService during order w = Normal () w'
    ∧ calls w' = calls w ++ ((λ g, mkCall (afterAcceptance (app w))
                                     (formatPrompt (roundBase (app w)) g)
                                     (BannerFormat.aspectRatio g))
                             <$> pre ++ [f])
    ∧ console w' = console w ++ [Caught e].
Proof.
  intros Hacc Hsplit Hpre Hf.
  destruct (firstThrow_at geminiService (roundBase (app w)) pre f post e Hpre Hf)
    as [Hthrow Hsent].
  rewrite <- Hsplit in Hthrow, Hsent.
  rewrite (generateBanners_accepted _ _ _ _ Hacc). unfold roundOutcome.
  rewrite Hthrow, Hsent. by eexists.
Qed.

Lemma dispatch_stops_at_first_throw_witness :
  ∃ w', generateBanners (throwsFor R1_1 (StringValue (lit "offline"))) []
          [0; 1; 2; 3; 4] freshWorld = Normal () w'
    ∧ aspectRatioArg <$> calls w' = [R16_9; R4_3; R1_1]
    ∧ console w' = [Caught (StringValue (lit "offline"))].
Proof.
  destruct (dispatch_stops_at_first_throw (throwsFor R1_1 (StringValue (lit "offline")))
              [] [0; 1; 2; 3; 4] freshWorld
              (take 2 bannerFormats)
              (BannerFormat.mk (lit "Square") R1_1 (lit "Ideal for social media feeds"))
              (drop 3 bannerFormats) (StringValue (lit "offline")))
    as (w' & Hrun & Hcalls & Hconsole).
  - split; reflexivity.
  - reflexivity.
  - intros g Hg. exists (Fulfills (taggedUrl (BannerFormat.aspectRatio g))).
    apply elem_of_cons in Hg as [->|Hg]; [reflexivity|].
    apply elem_of_cons in Hg as [->|Hg]; [reflexivity|].
    by apply elem_of_nil in Hg.
  - reflexivity.
  - exists w'. split; [exact Hrun|]. split; [|exact Hconsole].
    rewrite Hcalls. reflexivity.
Defined.

(** X6. In a round that reaches aggregation the console receives one
    "Failed to generate a banner" entry for each rejected request, in the
    order of the formats and with the reason of the rejection, and nothing
    else; displayed banners and logged failures add up to the five
    formats. *)
Theorem each_rejection_logged_once geminiService during order w :
  accepted (app w) →
  firstThrow geminiService (roundBase (app w)) bannerFormats = None →
  everyRequestSettles order →
  ∃ w', generateBanners geminiService during order w = Normal () w'
    ∧ console w'
      = console w ++ omap (failureOf geminiService (roundBase (app w))) bannerFormats
    ∧ length (generatedBanners (app w'))
      + length (omap (failureOf geminiService (roundBase (app w))) bannerFormats) = 5.
Proof.
  intros Hacc Hthrow Hsettle.
  destruct (rejectionLog_mapped geminiService (roundBase (app w)) bannerFormats Hthrow)
    as [Hlog Hcount].
  rewrite (generateBanners_accepted _ _ _ _ Hacc). unfold roundOutcome.
  rewrite Hthrow, Hlog. rewrite decide_True by done.
  eexists. split; [reflexivity|]. cbn [app console]. split; [done|].
  destruct (length (fulfilledBanners _ _ _) <? length bannerFormats); exact Hcount.
Qed.

Lemma each_rejection_logged_once_witness :
  ∃ w', generateBanners (rejectsFor [R9_16; R4_3]) [] [4; 0; 3; 1; 2] freshWorld
        = Normal () w'
    ∧ console w' = [FailedToGenerate (ErrorObject (lit "quota exceeded"));
                    FailedToGenerate (ErrorObject (lit "quota exceeded"))]
    ∧ length (generatedBanners (app w')) = 3.
Proof.
  destruct (each_rejection_logged_once (rejectsFor [R9_16; R4_3]) [] [4; 0; 3; 1; 2]
              freshWorld) as (w' & Hrun & Hconsole & _).
  - split; reflexivity.
  - reflexivity.
  - apply (bool_decide_unpack (everyRequestSettles _)). vm_compute. exact I.
  - exists w'. split; [exact Hrun|]. split; [rewrite Hconsole; reflexivity|].
    vm_compute in Hrun. injection Hrun as <-. reflexivity.
Defined.

(** X7. After every accepted call that completes, by aggregation or by the
    catch block, the error message is null exactly when five banners are
    displayed. *)
Theorem error_iff_banner_missing geminiService during order w w' :
  accepted (app w) →
  generateBanners geminiService during order w = Normal () w' →
  (error (app w') = None ↔ length (generatedBanners (app w')) = 5).
Proof.
  intros Hacc. rewrite (generateBanners_accepted _ _ _ _ Hacc).
  unfold roundOutcome.
  cbv zeta.
  pose proof (length_fulfilledBanners geminiService (roundBase (app w)) bannerFormats)
    as Hle.
  set (banners := fulfilledBanners geminiService (roundBase (app w)) bannerFormats) in *.
  change (length bannerFormats) with 5 in *.
  destruct (firstThrow _ _ _) as [e|]; [|destruct (decide _) as [Hs|Hs]];
    [| |done].
  - intros Hrun. injection Hrun as <-. done.
  - destruct (length banners <? 5) eqn:Hlt;
      intros Hrun; injection Hrun as <-; cbn [app];
      cbn [error generatedBanners set_error set_isLoading set_generatedBanners].
    + apply Nat.ltb_lt in Hlt. split; [done | lia].
    + apply Nat.ltb_ge in Hlt. rewrite error_during. split; [lia | done].
Qed.

Lemma error_iff_banner_missing_witness :
  ∃ w', generateBanners alwaysSucceeds [] [2; 3; 4; 0; 1] staleWorld = Normal () w'
    ∧ error (app w') = None
    ∧ length (generatedBanners (app w')) = 5.
Proof.
  eexists. split; [vm_compute; reflexivity|].
  assert (Hlen : length (generatedBanners (app
            (worldOf (generateBanners alwaysSucceeds [] [2; 3; 4; 0; 1] staleWorld)))) = 5)
    by (vm_compute; reflexivity).
  split; [|exact Hlen].
  apply (error_iff_banner_missing alwaysSucceeds [] [2; 3; 4; 0; 1] staleWorld).
  - split; reflexivity.
  - vm_compute. reflexivity.
  - exact Hlen.
Defined.

(** X8. Within one call no aspect ratio is requested twice: the aspect
    ratios of the requests sent are a prefix of 16:9, 4:3, 1:1, 3:4, 9:16,
    and when no call of the service throws every aspect ratio is
    requested. *)
Theorem no_ratio_requested_twice geminiService during order w :
  accepted (app w) →
  ∃ sent, calls (worldOf (generateBanners geminiService during order w)) = calls w ++ sent
    ∧ aspectRatioArg <$> sent `prefix_of` [R16_9; R4_3; R1_1; R3_4; R9_16]
    ∧ NoDup (aspectRatioArg <$> sent)
    ∧ (firstThrow geminiService (roundBase (app w)) bannerFormats = None →
       ∀ r, r ∈ aspectRatioArg <$> sent).
Proof.
  intros Hacc.
  exists ((λ f, mkCall (afterAcceptance (app w)) (formatPrompt (roundBase (app w)) f)
                  (BannerFormat.aspectRatio f))
          <$> dispatched geminiService (roundBase (app w)) bannerFormats).
  rewrite <- list_fmap_compose.
  change (aspectRatioArg ∘ _) with BannerFormat.aspectRatio.
  assert (Hprefix : BannerFormat.aspectRatio
                    <$> dispatched geminiService (roundBase (app w)) bannerFormats
                    `prefix_of` [R16_9; R4_3; R1_1; R3_4; R9_16]).
  { destruct (dispatched_prefix geminiService (roundBase (app w)) bannerFormats)
      as [rest Hrest].
    exists (BannerFormat.aspectRatio <$> rest).
    rewrite <- fmap_app, <- Hrest. reflexivity. }
  split; [|split; [exact Hprefix|split]].
  - rewrite (generateBanners_accepted _ _ _ _ Hacc). unfold roundOutcome.
    destruct (firstThrow _ _ _); [done|]. by destruct (decide _).
  - destruct Hprefix as [rest Hrest].
    assert (Hall : NoDup [R16_9; R4_3; R1_1; R3_4; R9_16]).
    { apply (bool_decide_unpack (NoDup _)). vm_compute. exact I. }
    rewrite Hrest in Hall. by apply NoDup_app in Hall as [? _].
  - intros Hthrow r. rewrite (dispatched_all _ _ _ Hthrow).
    apply list_elem_of_In. destruct r; cbn; tauto.
Qed.

Lemma no_ratio_requested_twice_witness :
  ∃ sent, calls (worldOf (generateBanners (rejectsFor [R3_4]) [] [1; 0] freshWorld)) = sent
    ∧ aspectRatioArg <$> sent = [R16_9; R4_3; R1_1; R3_4; R9_16].
Proof.
  destruct (no_ratio_requested_twice (rejectsFor [R3_4]) [] [1; 0] freshWorld)
    as (sent & Hcalls & _); [split; reflexivity|].
  exists sent. split; [exact Hcalls|].
  change (calls freshWorld ++ sent) with sent in Hcalls. rewrite <- Hcalls.
  vm_compute. reflexivity.
Defined.

(** X9. Rounds repeat: after an accepted call that completed with no edit
    in between, the component accepts a new call, and with a service that
    answers as before the new round ends with the very same signals. *)
Theorem second_round_reproduces geminiService order order' w w1 :
  accepted (app w) →
  generateBanners geminiService [] order w = Normal () w1 →
  everyRequestSettles order' →
  accepted (app w1)
  ∧ ∃ w2, generateBanners geminiService [] order' w1 = Normal () w2
          ∧ app w2 = app w1.
Proof.
  intros Hacc Hrun Hsettle'.
  rewrite (generateBanners_accepted _ _ _ _ Hacc) in Hrun.
  assert (Happ : app (worldOf (roundOutcome geminiService [] order w)) = app w1)
    by (by rewrite Hrun).
  unfold roundOutcome in Hrun, Happ.
  assert (Hfacts : accepted (app w1) ∧ inputsOf (app w1) = inputsOf (app w)).
  { rewrite <- Happ. destruct (firstThrow _ _ _); [by split; [split; [|apply Hacc]|]|].
    destruct (decide _); [|discriminate].
    cbn [worldOf app foldl].
    destruct (length _ <? length bannerFormats); by split; [split; [|apply Hacc]|]. }
  destruct Hfacts as [Hacc1 Hinputs]. split; [exact Hacc1|].
  rewrite (generateBanners_accepted _ _ _ _ Hacc1).
  rewrite (roundOutcome_inputs geminiService [] order' w1
             (mkWorld (app w) (console w1) (calls w1)) Hinputs eq_refl eq_refl).
  unfold roundOutcome. cbn [app console calls]. rewrite <- Happ.
  destruct (firstThrow _ _ _); [by eexists|].
  destruct (decide (everyRequestSettles order)); [|discriminate].
  rewrite decide_True by done. by eexists.
Qed.

Lemma second_round_reproduces_witness :
  ∃ w1 w2, generateBanners (rejectsFor [R1_1]) [] [0; 1; 2; 3; 4] freshWorld = Normal () w1
    ∧ generateBanners (rejectsFor [R1_1]) [] [4; 3; 2; 1; 0] w1 = Normal () w2
    ∧ app w2 = app w1
    ∧ length (calls w2) = 10.
Proof.
  eexists. 
  assert (Hrun : generateBanners (rejectsFor [R1_1]) [] [0; 1; 2; 3; 4] freshWorld
                 = Normal () (worldOf (generateBanners (rejectsFor [R1_1]) []
                                         [0; 1; 2; 3; 4] freshWorld)))
    by (vm_compute; reflexivity).
  destruct (second_round_reproduces (rejectsFor [R1_1]) [0; 1; 2; 3; 4] [4; 3; 2; 1; 0]
              freshWorld _ (conj eq_refl eq_refl) Hrun) as (_ & w2 & Hrun2 & Happ).
  { apply (bool_decide_unpack (everyRequestSettles _)). vm_compute. exact I. }
  exists w2. split; [exact Hrun|]. split; [exact Hrun2|]. split; [exact Happ|].
  vm_compute in Hrun2. injection Hrun2 as <-. reflexivity.
Defined.

Lemma formatPrompt_inj base f f' :
  f ∈ bannerFormats → f' ∈ bannerFormats →
  formatPrompt base f' = formatPrompt base f → f' = f.
Proof.
  intros Hf Hf' Heq. unfold formatPrompt in Heq. apply app_inv_head in Heq.
  enum_format Hf; enum_format Hf';
    first [reflexivity | vm_compute in Heq; discriminate].
Qed.

(** X10. Within one call no two requests carry the same prompt. *)
Theorem prompts_pairwise_distinct geminiService during order w :
  accepted (app w) →
  ∃ sent, calls (worldOf (generateBanners geminiService during order w)) = calls w ++ sent
    ∧ length sent ≤ 5
    ∧ NoDup (promptArg <$> sent).
Proof.
  intros Hacc.
  exists ((λ f, mkCall (afterAcceptance (app w)) (formatPrompt (roundBase (app w)) f)
                  (BannerFormat.aspectRatio f))
          <$> dispatched geminiService (roundBase (app w)) bannerFormats).
  destruct (dispatched_prefix geminiService (roundBase (app w)) bannerFormats)
    as [rest Hrest].
  split; [|split].
  - rewrite (generateBanners_accepted _ _ _ _ Hacc). unfold roundOutcome.
    destruct (firstThrow _ _ _); [done|]. by destruct (decide _).
  - rewrite length_fmap. apply (f_equal length) in Hrest.
    rewrite length_app in Hrest. change (length bannerFormats) with 5 in Hrest. lia.
  - rewrite <- list_fmap_compose.
    change (promptArg ∘ _) with (formatPrompt (roundBase (app w))).
    assert (Hall : NoDup bannerFormats).
    { apply (NoDup_fmap_1 BannerFormat.aspectRatio).
      apply (bool_decide_unpack (NoDup _)). vm_compute. exact I. }
    apply NoDup_fmap_2_strong.
    + intros f f' Hf Hf' Heq. symmetry. apply (formatPrompt_inj (roundBase (app w)));
        [| |done]; rewrite Hrest; apply elem_of_app; by left.
    + rewrite Hrest in Hall. by apply NoDup_app in Hall as [? _].
Qed.

Lemma prompts_pairwise_distinct_witness :
  ∃ sent, calls (worldOf (generateBanners alwaysSucceeds [] [] freshWorld)) = sent
    ∧ length sent = 5
    ∧ NoDup (promptArg <$> sent).
Proof.
  destruct (prompts_pairwise_distinct alwaysSucceeds [] [] freshWorld)
    as (sent & Hcalls & _ & Hdistinct); [split; reflexivity|].
  exists sent. split; [exact Hcalls|]. split; [|exact Hdistinct].
  change (calls freshWorld ++ sent) with sent in Hcalls. rewrite <- Hcalls.
  vm_compute. reflexivity.
Defined.

Lemma trimStart_split s :
  ∃ l, s = l ++ trimStart s ∧ Forall (λ c, isWhiteSpace c = true) l.
Proof.
  induction s as [|c s (l & Hs & Hl)]; [by exists []|]. cbn [trimStart].
  destruct (isWhiteSpace c) eqn:Hc.
  - exists (c :: l). split; [cbn; congruence | by constructor].
  - by exists [].
Qed.

Lemma trimStart_head s c :
  head (trimStart s) = Some c → isWhiteSpace c = false.
Proof.
  induction s as [|c' s IH]; [done|]. cbn [trimStart].
  destruct (isWhiteSpace c') eqn:Hc; [done|]. by intros [= <-].
Qed.

(** X11. [trim] removes white space at the two ends and nothing else: the
    string is its trimmed form between two runs of white space, and the
    trimmed form neither begins nor ends with white space. *)
Theorem trim_strips_both_ends s :
  ∃ l r, s = l ++ trim s ++ r
    ∧ Forall (λ c, isWhiteSpace c = true) l
    ∧ Forall (λ c, isWhiteSpace c = true) r
    ∧ (∀ c, head (trim s) = Some c → isWhiteSpace c = false)
    ∧ (∀ c, last (trim s) = Some c → isWhiteSpace c = false).
Proof.
  destruct (trimStart_split s) as (l & Hs & Hl).
  destruct (trimStart_split (reverse (trimStart s))) as (r' & Hr & Hr').
  assert (Hend : trimStart s = trim s ++ reverse r').
  { unfold trim, trimEnd. rewrite <- reverse_app, <- Hr.
    by rewrite reverse_involutive. }
  exists l, (reverse r'). split; [by rewrite <- Hend|]. split; [done|].
  split; [by apply Forall_reverse|]. split.
  - intros c Hc. apply (trimStart_head s). rewrite Hend.
    by destruct (trim s).
  - intros c Hc. apply (trimStart_head (reverse (trimStart s))).
    unfold trim, trimEnd in Hc. by rewrite last_reverse in Hc.
Qed.

(** X12. [Promise.allSettled] never rejects and never stops at the first
    rejection: it resolves exactly when every input promise has settled,
    with the result of each promise at the index of that promise, whatever
    the order of completion. *)
Theorem allSettled_waits_for_all {A} (promises : list (Promise A)) order results :
  allSettled promises order = Some results
  ↔ (∀ i, i < length promises → i ∈ order) ∧ results = settled <$> promises.
Proof.
  rewrite allSettled_spec. case_decide as Hall.
  - rewrite Forall_forall in Hall. split.
    + intros [= <-]. split; [|done]. intros i Hi. apply Hall, elem_of_seq. lia.
    + by intros [_ ->].
  - split; [done|]. intros [Hin _]. exfalso. apply Hall, Forall_forall.
    intros i Hi%elem_of_seq. apply Hin. lia.
Qed.

Lemma edits_last_write description url template actions : ∀ c,
  productDescription c = description → productUrl c = url →
  selectedTemplate c = template →
  inputsOf (foldl handle c actions)
  = (default description (last (descriptionEdits actions)),
     default url (last (urlEdits actions)),
     default template (last (templateEdits actions))).
Proof.
  revert description url template.
  induction actions as [|a actions IH]; intros description url template c <- <- <-;
    [done|].
  cbn [foldl].
  unfold descriptionEdits, urlEdits, templateEdits in *.
  destruct a as [event|event|t]; cbn [omap list_omap]; rewrite ?last_cons;
    erewrite IH by reflexivity;
    repeat match goal with |- context [last ?l] => destruct (last l) end;
    reflexivity.
Qed.

(** X13. Handler calls compose by last write: after any sequence of
    [updateDescription], [updateUrl] and [selectTemplate] each input holds
    the value of the last call that wrote it, or its old value when there
    was none, and the loading flag, the error and the banners are as
    before. *)
Theorem handlers_last_write_wins actions c :
  productDescription (foldl handle c actions)
  = default (productDescription c) (last (descriptionEdits actions))
  ∧ productUrl (foldl handle c actions)
    = default (productUrl c) (last (urlEdits actions))
  ∧ selectedTemplate (foldl handle c actions)
    = default (selectedTemplate c) (last (templateEdits actions))
  ∧ isLoading (foldl handle c actions) = isLoading c
  ∧ error (foldl handle c actions) = error c
  ∧ generatedBanners (foldl handle c actions) = generatedBanners c.
Proof.
  pose proof (edits_last_write _ _ _ actions c eq_refl eq_refl eq_refl) as Hedits.
  unfold inputsOf in Hedits. injection Hedits as Hd Hu Ht.
  rewrite isLoading_during, error_during, generatedBanners_during. done.
Qed.
